(** * The lesson chat widget of [static/chat.js]

    A shallow embedding of the widget's conversation state, of its event
    handlers and of the asynchronous [requestReply] function, followed by
    the properties of the request lifecycle.

    JavaScript strings are sequences of UTF-16 code units, parsed JSON bodies
    are JavaScript values, the widget's DOM nodes and its [history] array are
    fields of one state record, and an activation of [requestReply] that is
    suspended at an [await] is kept in the state until the event loop resumes
    it. *)

From Stdlib Require Import PrimFloat Ascii String.
From stdpp Require Import gmap strings list fin_maps.

Set Warnings "-register-all".

(** ** Strings *)

Module JsString.

(** A JavaScript string: its UTF-16 code units. *)
Definition jsstring : Type := list N.

(** A source literal (ASCII) as a JavaScript string. *)
Definition lit (s : string) : jsstring :=
  (λ a, N_of_ascii a) <$> list_ascii_of_string s.

(** ECMAScript WhiteSpace and LineTerminator code points, the ones
    [String.prototype.trim] strips: TAB, LF, VT, FF, CR, SP, NBSP, U+1680,
    U+2000..U+200A, U+2028, U+2029, U+202F, U+205F, U+3000, U+FEFF. *)
Definition isWhiteSpace (c : N) : bool :=
  bool_decide (c ∈ [9; 10; 11; 12; 13; 32; 160; 5760; 8232; 8233; 8239;
                    8287; 12288; 65279]%N)
  || ((8192 <=? c)%N && (c <=? 8202)%N).

Fixpoint trimStart (s : jsstring) : jsstring :=
  match s with
  | c :: s' => if isWhiteSpace c then trimStart s' else s
  | [] => []
  end.

Definition trimEnd (s : jsstring) : jsstring :=
  reverse (trimStart (reverse s)).

(** [s.trim()] *)
Definition trim (s : jsstring) : jsstring := trimEnd (trimStart s).

(** [a || b] on strings: the empty string is the only falsy one. *)
Definition str_or (a b : jsstring) : jsstring :=
  match a with [] => b | _ => a end.

End JsString.
Export JsString.

(** ** JavaScript values and completions *)

Module Js.

(** What [response.json()] can resolve to, and what property reads on it
    can give: JSON values, plus [undefined] for a missing property. *)
Inductive value : Type :=
| VUndefined
| VNull
| VBool (b : bool)
| VNum (x : float)
| VStr (s : jsstring)
| VArr (items : list value)
| VObj (fields : gmap jsstring value).

Inductive error : Type :=
| TypeError.

(** The result of evaluating JavaScript code: a value, or a thrown error. *)
Inductive completion (A : Type) : Type :=
| Normal (a : A)
| Throw (e : error).
Arguments Normal {A} a.
Arguments Throw {A} e.

Definition bind {A B} (c : completion A) (k : A → completion B) : completion B :=
  match c with
  | Normal a => k a
  | Throw e => Throw e
  end.

(** ToBoolean *)
Definition toBoolean (v : value) : bool :=
  match v with
  | VUndefined | VNull => false
  | VBool b => b
  | VNum x => negb (is_zero x || is_nan x)
  | VStr s => match s with [] => false | _ => true end
  | VArr _ | VObj _ => true
  end.

(** [typeof v === "string"], with the string when it is one. *)
Definition asString (v : value) : option jsstring :=
  match v with
  | VStr s => Some s
  | _ => None
  end.

(** [v.k] for the property names the widget reads ([text], [message],
    [error], [details]): a TypeError on [undefined] and [null], the own
    property of an object, and [undefined] otherwise (no prototype of a
    boolean, number, string or array defines one of these names). *)
Definition getProp (v : value) (k : jsstring) : completion value :=
  match v with
  | VUndefined | VNull => Throw TypeError
  | VObj fields => Normal (default VUndefined (fields !! k))
  | VBool _ | VNum _ | VStr _ | VArr _ => Normal VUndefined
  end.

(** [v.trim()]: defined on strings only; on [undefined] and [null] the
    property read throws, elsewhere [trim] is not a function. *)
Definition callTrim (v : value) : completion jsstring :=
  match v with
  | VStr s => Normal (trim s)
  | _ => Throw TypeError
  end.

End Js.
Export Js.

Notation "'let!' x ':=' c 'in' k" := (bind c (λ x, k))
  (at level 10, x name, c at level 100, k at level 200).

(** ** The widget's state *)

(** One entry of the [history] array: [{ role, text }]. *)
Record turn : Type := Turn { role : jsstring; text : jsstring }.

(** One child of the [log] element. [classList] holds the class tokens of
    the row, [textContent] its text. *)
Record row : Type := Row { classList : list jsstring; textContent : jsstring }.

(** One call of [fetch]: the endpoint, the options and the body.
    [JSON.stringify] runs when [fetch] is called, so the body holds the
    [history] array as it was at the call, together with the model name. *)
Record request : Type := Request {
  url : jsstring;
  method : jsstring;
  content_type : jsstring;
  body_history : list turn;
  body_model : jsstring
}.

(** An activation of [requestReply] suspended at one of its two [await]s.
    It holds the local variables that are live there: [assistantNode], the
    position of the placeholder row among the children of [log] (children
    are only ever appended, so the position names the node for good), and
    after the first [await] the [ok] flag of the response. *)
Inductive suspended : Type :=
| AwaitFetch (assistantNode : nat)
| AwaitJson (assistantNode : nat) (ok : bool).

Record widget : Type := Widget {
  history : list turn;          (* const history = [...] *)
  log : list row;               (* children of the log element *)
  input_value : jsstring;       (* input.value *)
  input_disabled : bool;        (* input.disabled *)
  send_disabled : bool;         (* send.disabled *)
  container_open : bool;        (* container.classList.contains("open") *)
  input_focused : bool;         (* document.activeElement === input *)
  sent : list request;          (* the calls of fetch so far, oldest first *)
  awaiting : list suspended     (* suspended activations of requestReply *)
}.

(** The spec's [pending] flag is the disabled state of the send control,
    which is what the submit listener tests. *)
Definition pending (w : widget) : bool := send_disabled w.

Definition system_turn : turn :=
  Turn (lit "system")
       (lit "You are a concise, friendly assistant who helps students understand the lesson content. Keep answers focused on the provided materials and give short explanations.").

(** The state once the script has run on a page that carries a lesson key. *)
Definition init : widget :=
  {| history := [system_turn];
     log := [];
     input_value := [];
     input_disabled := false;
     send_disabled := false;
     container_open := false;
     input_focused := false;
     sent := [];
     awaiting := [] |}.

Section Updates.

Definition set_history (h : list turn) (w : widget) : widget :=
  Widget h (log w) (input_value w) (input_disabled w) (send_disabled w)
         (container_open w) (input_focused w) (sent w) (awaiting w).

Definition set_log (l : list row) (w : widget) : widget :=
  Widget (history w) l (input_value w) (input_disabled w) (send_disabled w)
         (container_open w) (input_focused w) (sent w) (awaiting w).

Definition set_input_value (v : jsstring) (w : widget) : widget :=
  Widget (history w) (log w) v (input_disabled w) (send_disabled w)
         (container_open w) (input_focused w) (sent w) (awaiting w).

Definition set_input_disabled (b : bool) (w : widget) : widget :=
  Widget (history w) (log w) (input_value w) b (send_disabled w)
         (container_open w) (input_focused w) (sent w) (awaiting w).

Definition set_send_disabled (b : bool) (w : widget) : widget :=
  Widget (history w) (log w) (input_value w) (input_disabled w) b
         (container_open w) (input_focused w) (sent w) (awaiting w).

Definition set_container_open (b : bool) (w : widget) : widget :=
  Widget (history w) (log w) (input_value w) (input_disabled w)
         (send_disabled w) b (input_focused w) (sent w) (awaiting w).

Definition set_input_focused (b : bool) (w : widget) : widget :=
  Widget (history w) (log w) (input_value w) (input_disabled w)
         (send_disabled w) (container_open w) b (sent w) (awaiting w).

Definition set_sent (r : list request) (w : widget) : widget :=
  Widget (history w) (log w) (input_value w) (input_disabled w)
         (send_disabled w) (container_open w) (input_focused w) r (awaiting w).

Definition set_awaiting (a : list suspended) (w : widget) : widget :=
  Widget (history w) (log w) (input_value w) (input_disabled w)
         (send_disabled w) (container_open w) (input_focused w) (sent w) a.

End Updates.

(** ** DOM operations *)

(** [history.push(t)] *)
Definition history_push (t : turn) (w : widget) : widget :=
  set_history (history w ++ [t]) w.

(** [appendRow(role, text)]: a new row with class name
    [`lesson-chat-row ${role}`] becomes the last child of [log]; the result
    is the new node, here its position. Both callers pass a single class
    token as [role]. Scrolling the log to its bottom edge is layout and has
    no counterpart in the state. *)
Definition appendRow (role text : jsstring) (w : widget) : nat * widget :=
  (length (log w),
   set_log (log w ++ [Row [lit "lesson-chat-row"; role] text]) w).

(** [node.classList.add(token)]: the token is added unless it is there. *)
Definition classList_add (node : nat) (token : jsstring) (w : widget) : widget :=
  match log w !! node with
  | Some r =>
      if bool_decide (token ∈ classList r) then w
      else set_log (<[node := Row (classList r ++ [token]) (textContent r)]> (log w)) w
  | None => w
  end.

(** [node.textContent = text] *)
Definition set_textContent (node : nat) (text : jsstring) (w : widget) : widget :=
  match log w !! node with
  | Some r => set_log (<[node := Row (classList r) text]> (log w)) w
  | None => w
  end.

(** [node.textContent] *)
Definition get_textContent (node : nat) (w : widget) : jsstring :=
  match log w !! node with
  | Some r => textContent r
  | None => []
  end.

(** [input.focus()]: a disabled control cannot take the focus. *)
Definition input_focus (w : widget) : widget :=
  if input_disabled w then w else set_input_focused true w.

(** [input.disabled = b]: a control that becomes disabled loses the focus. *)
Definition input_set_disabled (b : bool) (w : widget) : widget :=
  let w := set_input_disabled b w in
  if b then set_input_focused false w else w.

(** [setPending(isPending)] *)
Definition setPending (isPending : bool) (w : widget) : widget :=
  let w := input_set_disabled isPending w in
  let w := set_send_disabled isPending w in
  if negb isPending then input_focus w else w.

(** ** [requestReply]

    The function runs in three stretches, cut at its two [await]s: from the
    call to [await fetch(...)], from there to [await response.json()], and
    from there to the end. Each [catch] block is the continuation of the
    [await] it guards when the awaited promise rejects. *)

Definition chat_request (h : list turn) : request :=
  {| url := lit "/api/chat";
     method := lit "POST";
     content_type := lit "application/json";
     body_history := h;
     body_model := lit "gpt-5-2025-08-07" |}.

(** Lines 67-79: up to the first [await]. *)
Definition requestReply (message : jsstring) (w : widget) : widget :=
  let w := history_push (Turn (lit "user") message) w in
  let w := snd (appendRow (lit "me") message w) in
  let '(assistantNode, w) := appendRow (lit "bot") (lit "...") w in
  let w := setPending true w in
  let w := set_sent (sent w ++ [chat_request (history w)]) w in
  set_awaiting (awaiting w ++ [AwaitFetch assistantNode]) w.

(** Lines 80-85: [fetch] rejected. *)
Definition requestReply_catch_fetch (assistantNode : nat) (w : widget) : widget :=
  let w := classList_add assistantNode (lit "meta") w in
  let w := set_textContent assistantNode (lit "Network error. Please try again.") w in
  setPending false w.

(** Lines 90-95: [response.json()] rejected. *)
Definition requestReply_catch_json (assistantNode : nat) (w : widget) : widget :=
  let w := classList_add assistantNode (lit "meta") w in
  let w := set_textContent assistantNode (lit "Invalid response from server.") w in
  setPending false w.

Definition paren (s : jsstring) : jsstring := lit " (" ++ s ++ lit ")".

(** [typeof v === "string"] *)
Definition is_string (v : value) : bool :=
  match asString v with Some _ => true | None => false end.

(** [typeof v === "string" && v.trim()] as a condition *)
Definition is_nonblank_string (v : value) : bool :=
  match asString v with
  | Some s => toBoolean (VStr (trim s))
  | None => false
  end.

(** Lines 101-118: the value of [detail] when line 119 is reached. *)
Definition failure_detail (payload : value) : completion jsstring :=
  if toBoolean payload then
    let! message := getProp payload (lit "message") in
    if is_nonblank_string message then
      let! m := callTrim message in
      Normal (paren m)
    else
      let! error := getProp payload (lit "error") in
      if toBoolean error then
        match asString error with
        | Some e => Normal (paren e)
        | None => Normal []
        end
      else
        let! details := getProp payload (lit "details") in
        let! nested :=
          (if toBoolean details then
             let! e := getProp details (lit "error") in Normal (toBoolean e)
           else Normal false) in
        if nested then
          let! err := getProp details (lit "error") in
          match asString err with
          | Some e => Normal (paren e)
          | None =>
              if toBoolean err then
                let! m := getProp err (lit "message") in
                match asString m with
                | Some s => Normal (paren s)
                | None => Normal []
                end
              else Normal []
          end
        else Normal []
  else Normal [].

(** Line 99: [!response.ok || !payload || typeof payload.text !== "string"] *)
Definition reply_failed (ok : bool) (payload : value) : completion bool :=
  if negb ok then Normal true
  else if negb (toBoolean payload) then Normal true
  else let! t := getProp payload (lit "text") in Normal (negb (is_string t)).

(** Lines 97-124: the body was parsed. *)
Definition requestReply_after_json
    (assistantNode : nat) (ok : bool) (payload : value) (w : widget)
  : completion widget :=
  let w := setPending false w in
  let! failed := reply_failed ok payload in
  if failed then
    let w := classList_add assistantNode (lit "meta") w in
    let! detail := failure_detail payload in
    Normal (set_textContent assistantNode
              (lit "Could not get a reply" ++ detail ++ lit ".") w)
  else
    let! t := getProp payload (lit "text") in
    let! trimmed := callTrim t in
    let w := set_textContent assistantNode
               (str_or trimmed (lit "I do not have an answer right now.")) w in
    Normal (history_push
              (Turn (lit "assistant") (get_textContent assistantNode w)) w).

(** ** Listeners *)

(** The click listener of the toggle button. *)
Definition toggle_click (w : widget) : widget :=
  let w := set_container_open (negb (container_open w)) w in
  if container_open w then input_focus w else w.

(** The submit listener of the form. [event.preventDefault()] keeps the
    browser from navigating and touches nothing of the widget. *)
Definition form_submit (w : widget) : widget :=
  let message := trim (input_value w) in
  if negb (toBoolean (VStr message)) || send_disabled w then w
  else
    let w := set_input_value [] w in
    requestReply message w.

(** ** The event loop *)

(** What the event loop can deliver to the widget: user actions on its
    controls, and the settlement of the promise that the [i]-th suspended
    activation of [requestReply] waits for. *)
Inductive event : Type :=
| Click
| Edit (v : jsstring)
| Focus
| Blur
| Submit
| FetchRejected (i : nat)
| FetchFulfilled (i : nat) (ok : bool)
| JsonRejected (i : nat)
| JsonFulfilled (i : nat) (payload : value).

(** One turn of the event loop. A settlement that no suspended activation
    waits for does not occur, and leaves the state as it is. The result is
    a [Throw] when an error escapes the code that the event runs. *)
Definition step (e : event) (w : widget) : completion widget :=
  match e with
  | Click => Normal (toggle_click w)
  | Edit v => Normal (set_input_value v w)
  | Focus => Normal (input_focus w)
  | Blur => Normal (set_input_focused false w)
  | Submit => Normal (form_submit w)
  | FetchRejected i =>
      match awaiting w !! i with
      | Some (AwaitFetch node) =>
          Normal (requestReply_catch_fetch node
                    (set_awaiting (delete i (awaiting w)) w))
      | _ => Normal w
      end
  | FetchFulfilled i ok =>
      match awaiting w !! i with
      | Some (AwaitFetch node) =>
          Normal (set_awaiting (<[i := AwaitJson node ok]> (awaiting w)) w)
      | _ => Normal w
      end
  | JsonRejected i =>
      match awaiting w !! i with
      | Some (AwaitJson node _) =>
          Normal (requestReply_catch_json node
                    (set_awaiting (delete i (awaiting w)) w))
      | _ => Normal w
      end
  | JsonFulfilled i payload =>
      match awaiting w !! i with
      | Some (AwaitJson node ok) =>
          requestReply_after_json node ok payload
            (set_awaiting (delete i (awaiting w)) w)
      | _ => Normal w
      end
  end.

Fixpoint run (evs : list event) (w : widget) : completion widget :=
  match evs with
  | [] => Normal w
  | e :: evs' => let! w' := step e w in run evs' w'
  end.

(** The states the widget can be in: those the event loop reaches from
    [init]. *)
Inductive reachable : widget → Prop :=
| reachable_init : reachable init
| reachable_step e w w' :
    reachable w → step e w = Normal w' → reachable w'.

(** The user's own events; they can occur at any time, also while a request
    is in flight. *)
Definition user_event (e : event) : bool :=
  match e with
  | Click | Edit _ | Focus | Blur | Submit => true
  | _ => false
  end.

(** How the request of an exchange ends. *)
Inductive outcome : Type :=
| TransportFailure
| MalformedBody (ok : bool)
| Parsed (ok : bool) (payload : value).

(** An exchange: a submit, then the settlements of its request, with user
    events [during1] while [fetch] is in flight and [during2] while the body
    is read. *)
Definition exchange (o : outcome) (during1 during2 : list event) : list event :=
  Submit :: during1 ++
    match o with
    | TransportFailure => [FetchRejected 0]
    | MalformedBody ok => FetchFulfilled 0 ok :: during2 ++ [JsonRejected 0]
    | Parsed ok payload =>
        FetchFulfilled 0 ok :: during2 ++ [JsonFulfilled 0 payload]
    end.

(** ** What an exchange leaves behind

    Closed forms of the rows and turns that the stretches of [requestReply]
    produce. They are derived from the code above by the lemmas of the next
    part, and serve to state what a whole exchange does. *)

(** Reading a property without the TypeError: what [getProp] gives where it
    does not throw, and [undefined] where it does. *)
Definition field (v : value) (k : jsstring) : value :=
  match v with
  | VObj fields => default VUndefined (fields !! k)
  | _ => VUndefined
  end.

Definition me_row (message : jsstring) : row :=
  Row [lit "lesson-chat-row"; lit "me"] message.

Definition placeholder : row :=
  Row [lit "lesson-chat-row"; lit "bot"] (lit "...").

Definition reply_row (text : jsstring) : row :=
  Row [lit "lesson-chat-row"; lit "bot"] text.

Definition meta_row (text : jsstring) : row :=
  Row [lit "lesson-chat-row"; lit "bot"; lit "meta"] text.

Definition node_of (c : suspended) : nat :=
  match c with
  | AwaitFetch n => n
  | AwaitJson n _ => n
  end.

Definition suffix (detail : option jsstring) : jsstring :=
  match detail with
  | Some d => paren d
  | None => []
  end.

(** The detail of a failure as the interface description words it: the
    top-level [message] if it is a non-empty string, else the top-level
    [error] if it is a string, else [details.error] as a string or as an
    object with a string [message]; a top-level [error] that is not a string
    does not stop the search. *)
Definition described_detail (payload : value) : option jsstring :=
  match field payload (lit "message") with
  | VStr (c :: m) => Some (c :: m)
  | _ =>
      match field payload (lit "error") with
      | VStr e => Some e
      | _ =>
          match field (field payload (lit "details")) (lit "error") with
          | VStr e => Some e
          | VObj fields => asString (field (VObj fields) (lit "message"))
          | _ => None
          end
      end
  end.

(** The detail of a failure as [requestReply] is built to extract it: the
    trimmed [message] when it is a string that trimming leaves non-empty;
    else, when the top-level [error] is truthy, [error] itself if it is a
    string and nothing if it is not; else, when [details.error] is truthy,
    that value if it is a string and otherwise its [message] if that is a
    string; nothing in every other case. *)
Definition designed_detail (payload : value) : option jsstring :=
  let message := field payload (lit "message") in
  let error := field payload (lit "error") in
  let nested := field (field payload (lit "details")) (lit "error") in
  if is_nonblank_string message then trim <$> asString message
  else if toBoolean error then asString error
  else if toBoolean nested then
    match asString nested with
    | Some e => Some e
    | None => asString (field nested (lit "message"))
    end
  else None.

(** The reply of a parsed response, if it counts as a success: the status is
    ok and [text] is a string. *)
Definition reply_text (ok : bool) (payload : value) : option jsstring :=
  if ok then asString (field payload (lit "text")) else None.

Definition fallback : jsstring := lit "I do not have an answer right now.".

(** The row that replaces the placeholder when the exchange ends. *)
Definition settled_row (o : outcome) : row :=
  match o with
  | TransportFailure => meta_row (lit "Network error. Please try again.")
  | MalformedBody _ => meta_row (lit "Invalid response from server.")
  | Parsed ok payload =>
      match reply_text ok payload with
      | Some t => reply_row (str_or (trim t) fallback)
      | None =>
          meta_row (lit "Could not get a reply"
                      ++ suffix (designed_detail payload) ++ lit ".")
      end
  end.

(** The turns that the end of the exchange appends to [history]. *)
Definition reply_turns (o : outcome) : list turn :=
  match o with
  | Parsed ok payload =>
      match reply_text ok payload with
      | Some t => [Turn (lit "assistant") (str_or (trim t) fallback)]
      | None => []
      end
  | _ => []
  end.

(** ** Invariants *)

Definition known_role (t : turn) : Prop :=
  role t = lit "system" ∨ role t = lit "user" ∨ role t = lit "assistant".

(** The texts of the assistant turns, in order. *)
Definition assistant_texts (h : list turn) : list jsstring :=
  text <$> filter (λ t, role t = lit "assistant") h.

(** A row that shows a reply: a [bot] row that was not marked [meta]. *)
Definition is_reply_row (r : row) : bool :=
  bool_decide (lit "bot" ∈ classList r)
  && negb (bool_decide (lit "meta" ∈ classList r)).

(** The texts of the reply rows among [rows], the children of [log] from
    position [i] on, leaving out the nodes in [nodes]. *)
Fixpoint replies_from (i : nat) (nodes : list nat) (rows : list row) : list jsstring :=
  match rows with
  | [] => []
  | r :: rows' =>
      (if is_reply_row r && negb (bool_decide (i ∈ nodes))
       then [textContent r] else [])
      ++ replies_from (S i) nodes rows'
  end.

(** The replies on display: the reply rows of the log, except the
    placeholder that a suspended activation still holds. *)
Definition displayed_replies (w : widget) : list jsstring :=
  replies_from 0 (node_of <$> awaiting w) (log w).

(** Either no request is in flight and the controls are enabled, or exactly
    one is, the controls are disabled, and its placeholder is the last row
    of the log. *)
Definition flight (w : widget) : Prop :=
  (awaiting w = [] ∧ send_disabled w = false)
  ∨ (∃ c l, awaiting w = [c] ∧ send_disabled w = true
            ∧ log w = l ++ [placeholder] ∧ node_of c = length l).

(** The rows of the log that are settled: all of them, but for the
    placeholder of a request in flight. *)
Definition settled_rows (w : widget) : list row :=
  match awaiting w with
  | [] => log w
  | _ => removelast (log w)
  end.

Record inv (w : widget) : Prop := Inv {
  inv_disabled : input_disabled w = send_disabled w;
  inv_flight : flight w;
  inv_head : head (history w) = Some system_turn;
  inv_roles : Forall known_role (history w);
  inv_texts : Forall (λ t, role t = lit "assistant" → text t ≠ []) (history w);
  inv_replies : assistant_texts (history w) = replies_from 0 [] (settled_rows w)
}.

(** What the user's events leave alone while a request is in flight. *)
Definition quiet (w w' : widget) : Prop :=
  history w' = history w ∧ log w' = log w ∧ sent w' = sent w
  ∧ awaiting w' = awaiting w ∧ send_disabled w' = send_disabled w
  ∧ input_disabled w' = input_disabled w.

(** [w'] is [w] once its request in flight, whose placeholder follows the
    rows [l], has ended with outcome [o]. *)
Definition settles (w : widget) (l : list row) (o : outcome) (w' : widget) : Prop :=
  history w' = history w ++ reply_turns o
  ∧ log w' = l ++ [settled_row o]
  ∧ sent w' = sent w
  ∧ awaiting w' = []
  ∧ send_disabled w' = false
  ∧ input_disabled w' = false
  ∧ input_focused w' = true.

(** The precondition of an exchange: the submit listener lets the message
    through. *)
Definition accepted (w : widget) : Prop :=
  pending w = false ∧ trim (input_value w) ≠ [].

(** The node that [requestReply], called in state [w], gets from its second
    [appendRow]: the user's row comes first, the placeholder after it. *)
Definition placeholder_node (w : widget) : nat := S (length (log w)).

(** The text on display in the row at [node], if there is one. *)
Definition displayed (w : widget) (node : nat) : option jsstring :=
  textContent <$> log w !! node.

(** The class tokens of the row at [node]. *)
Definition classes (w : widget) (node : nat) : list jsstring :=
  match log w !! node with
  | Some r => classList r
  | None => []
  end.

(** ** Sample states and bodies *)

(** The user has typed a question and not yet sent it. *)
Definition asked : widget :=
  set_input_value (lit "  What does this particle mean? ") init.

(** [{ "error": "rate_limited" }] *)
Definition rate_limited : value :=
  VObj {[ lit "error" := VStr (lit "rate_limited") ]}.

(** [{ "details": { "error": { "message": "bad token" } } }] *)
Definition bad_token : value :=
  VObj {[ lit "details" :=
            VObj {[ lit "error" :=
                      VObj {[ lit "message" := VStr (lit "bad token") ]} ]} ]}.

(** [{ "error": { "code": "E429" }, "details": { "error": "quota exceeded" } }] *)
Definition coded_error : value :=
  VObj {[ lit "error" := VObj {[ lit "code" := VStr (lit "E429") ]};
          lit "details" := VObj {[ lit "error" := VStr (lit "quota exceeded") ]} ]}.

(** [{ "text": "  Hello!  " }] *)
Definition hello : value :=
  VObj {[ lit "text" := VStr (lit "  Hello!  ") ]}.

(** The state after the question of [asked] was sent and answered by
    [hello], the user toggling the panel meanwhile. *)
Definition answered : widget :=
  Eval vm_compute in
    match run (exchange (Parsed true hello) [Click] [Click]) asked with
    | Normal w => w
    | Throw _ => init
    end.

(** ** Start-up *)

(** What the script leaves on the page when it activates: the accessible
    label of the dialog and the widget in its first state. The other
    attributes it sets (class names, the toggle's label, the placeholder of
    the input, the text of the send button) are constants. *)
Record mounted : Type := Mounted { dialog_label : jsstring; state : widget }.

(** [dataset.k]: the string of the attribute, or [undefined]. *)
Definition dataset_get (dataset : gmap jsstring jsstring) (k : jsstring) : value :=
  match dataset !! k with
  | Some s => VStr s
  | None => VUndefined
  end.

(** Lines 1-47, the body of the script up to the declarations of its
    functions. The argument is [document.body], if the document has one,
    as its [dataset]. The result is [None] when the script returns at
    line 4. *)
Definition main (body : option (gmap jsstring jsstring)) : option mounted :=
  match body with
  | None => None
  | Some dataset =>
      if negb (toBoolean (dataset_get dataset (lit "lessonKey"))) then None
      else
        let lessonName :=
          match dataset_get dataset (lit "lessonName") with
          | VStr (c :: s) => c :: s
          | _ => lit "lesson"
          end in
        Some (Mounted (lessonName ++ lit " AI helper") init)
  end.

(** ** The conversation as a whole *)

(** A string that does not begin, or does not end, with white space. *)
Definition starts_clean (s : jsstring) : Prop :=
  match head s with
  | Some c => isWhiteSpace c = false
  | None => True
  end.

Definition ends_clean (s : jsstring) : Prop :=
  match last s with
  | Some c => isWhiteSpace c = false
  | None => True
  end.

Definition is_user (t : turn) : Prop := role t = lit "user".

(** The user's rows. *)
Definition is_me_row (r : row) : Prop := lit "me" ∈ classList r.

(** The three kinds of rows. *)
Definition row_shape (r : row) : Prop :=
  ∃ t, r = me_row t ∨ r = reply_row t ∨ r = meta_row t.

(** Every assistant turn comes right after a user turn. *)
Definition answers_follow_questions (h : list turn) : Prop :=
  ∀ i t, h !! i = Some t → role t = lit "assistant" →
         ∃ j u, i = S j ∧ h !! j = Some u ∧ role u = lit "user".

(** A request as [requestReply] issues it: the fixed endpoint, method,
    content type and model, a history that the conversation still begins
    with, and that ends with a user turn. *)
Definition well_formed_request (h : list turn) (r : request) : Prop :=
  r = chat_request (body_history r)
  ∧ body_history r `prefix_of` h
  ∧ ∃ h0 u, body_history r = h0 ++ [u] ∧ role u = lit "user".

Record conversation (w : widget) : Prop := Conversation {
  conv_requests : Forall (well_formed_request (history w)) (sent w);
  conv_count : length (sent w) = length (filter is_user (history w));
  conv_rows : length (log w) = 2 * length (sent w);
  conv_trimmed :
    Forall (λ t, role t ≠ lit "system" →
                 text t ≠ [] ∧ starts_clean (text t) ∧ ends_clean (text t))
           (history w);
  conv_shapes : Forall row_shape (log w);
  conv_paired : answers_follow_questions (history w);
  conv_last : awaiting w ≠ [] → ∃ h u, history w = h ++ [u] ∧ role u = lit "user";
  conv_me : textContent <$> filter is_me_row (log w)
            = text <$> filter is_user (history w)
}.

(** What one turn of the event loop can do to the conversation: nothing,
    start an exchange, move it from its first [await] to its second, or
    end it. *)
Inductive transition (w w' : widget) : Prop :=
| tr_quiet : quiet w w' → transition w w'
| tr_submit :
    awaiting w = [] →
    trim (input_value w) ≠ [] →
    history w' = history w ++ [Turn (lit "user") (trim (input_value w))] →
    log w' = (log w ++ [me_row (trim (input_value w))]) ++ [placeholder] →
    sent w' = sent w ++ [chat_request
                (history w ++ [Turn (lit "user") (trim (input_value w))])] →
    awaiting w' = [AwaitFetch (length (log w ++ [me_row (trim (input_value w))]))] →
    transition w w'
| tr_wait n ok :
    awaiting w = [AwaitFetch n] →
    awaiting w' = [AwaitJson n ok] →
    history w' = history w → log w' = log w → sent w' = sent w →
    transition w w'
| tr_settle l o :
    awaiting w ≠ [] →
    log w = l ++ [placeholder] →
    settles w l o w' →
    transition w w'.

(** ** Properties *)

Section Strings.

Lemma lit_bot_ne_me : lit "bot" ≠ lit "me".
Proof. discriminate. Qed.

Lemma str_or_nonempty a b : b ≠ [] → str_or a b ≠ [].
Proof. destruct a; simpl; [done | discriminate]. Qed.

Lemma str_or_l a b : a ≠ [] → str_or a b = a.
Proof. destruct a; simpl; [done | reflexivity]. Qed.

Lemma toBoolean_str s : toBoolean (VStr s) = true ↔ s ≠ [].
Proof. destruct s; simpl; split; try done. Qed.

End Strings.

Section Extraction.

Lemma getProp_field v k : toBoolean v = true → getProp v k = Normal (field v k).
Proof. destruct v; simpl; try done. Qed.

Lemma field_falsy v k : toBoolean v = false → field v k = VUndefined.
Proof. destruct v; simpl; try done. Qed.

Lemma reply_failed_spec ok payload :
  reply_failed ok payload
  = Normal (match reply_text ok payload with Some _ => false | None => true end).
Proof.
  unfold reply_failed, reply_text. destruct ok; simpl; [|done].
  destruct (toBoolean payload) eqn:Hp; simpl.
  - rewrite getProp_field by done. simpl. unfold is_string.
    by destruct (asString _).
  - by rewrite field_falsy.
Qed.

Lemma failure_detail_spec payload :
  failure_detail payload = Normal (suffix (designed_detail payload)).
Proof.
  unfold failure_detail, designed_detail.
  destruct (toBoolean payload) eqn:Hp.
  - rewrite !getProp_field by done. simpl.
    destruct (is_nonblank_string (field payload (lit "message"))) eqn:Hm.
    { unfold is_nonblank_string in Hm.
      destruct (field payload (lit "message")); simpl in *; done. }
    destruct (toBoolean (field payload (lit "error"))) eqn:He.
    { destruct (asString _); reflexivity. }
    destruct (toBoolean (field payload (lit "details"))) eqn:Hd.
    + rewrite !getProp_field by done. simpl.
      destruct (toBoolean (field (field payload (lit "details")) (lit "error")))
        eqn:Hn; [|done].
      destruct (asString (field (field payload (lit "details")) (lit "error")))
        eqn:Hs; [done|].
      rewrite getProp_field by done. simpl.
      destruct (asString (field (field (field _ _) _) _)); reflexivity.
    + simpl. rewrite (field_falsy _ _ Hd). done.
  - rewrite !(field_falsy _ _ Hp). done.
Qed.

End Extraction.

Section Dom.

Lemma list_insert_last {A} (l : list A) (x y : A) :
  <[length l := y]> (l ++ [x]) = l ++ [y].
Proof.
  replace (length l) with (length l + 0) by lia.
  by rewrite insert_app_r.
Qed.

Lemma list_lookup_last {A} (l : list A) (x : A) :
  (l ++ [x]) !! length l = Some x.
Proof. by apply list_lookup_middle. Qed.

Lemma classList_add_last w l r token :
  log w = l ++ [r] → token ∉ classList r →
  classList_add (length l) token w
  = set_log (l ++ [Row (classList r ++ [token]) (textContent r)]) w.
Proof.
  intros Hlog Hnot. unfold classList_add.
  rewrite Hlog, list_lookup_last, bool_decide_false by done.
  by rewrite list_insert_last.
Qed.

Lemma set_textContent_last w l r t :
  log w = l ++ [r] →
  set_textContent (length l) t w = set_log (l ++ [Row (classList r) t]) w.
Proof.
  intros Hlog. unfold set_textContent.
  by rewrite Hlog, list_lookup_last, list_insert_last.
Qed.

Lemma get_textContent_last w l r :
  log w = l ++ [r] → get_textContent (length l) w = textContent r.
Proof.
  intros Hlog. unfold get_textContent. by rewrite Hlog, list_lookup_last.
Qed.

Lemma meta_not_in_placeholder : lit "meta" ∉ classList placeholder.
Proof. apply (bool_decide_unpack _). by vm_compute. Qed.

End Dom.

(** The stretches of [requestReply], when the placeholder is the last row of
    the log. *)
Section Stretches.

Lemma form_submit_idle w :
  send_disabled w = false → trim (input_value w) ≠ [] →
  form_submit w
  = {| history := history w ++ [Turn (lit "user") (trim (input_value w))];
       log := (log w ++ [me_row (trim (input_value w))]) ++ [placeholder];
       input_value := [];
       input_disabled := true;
       send_disabled := true;
       container_open := container_open w;
       input_focused := false;
       sent := sent w ++ [chat_request
                 (history w ++ [Turn (lit "user") (trim (input_value w))])];
       awaiting := awaiting w
                   ++ [AwaitFetch (length (log w ++ [me_row (trim (input_value w))]))]
    |}.
Proof.
  intros Hsend Hmsg. unfold form_submit.
  apply toBoolean_str in Hmsg. rewrite Hmsg, Hsend. reflexivity.
Qed.

Lemma form_submit_ignored w :
  send_disabled w = true ∨ trim (input_value w) = [] → form_submit w = w.
Proof.
  intros [Hsend | Hmsg]; unfold form_submit.
  - rewrite Hsend. by rewrite orb_true_r.
  - by rewrite Hmsg.
Qed.

Lemma catch_fetch_last w l :
  log w = l ++ [placeholder] →
  requestReply_catch_fetch (length l) w
  = {| history := history w;
       log := l ++ [settled_row TransportFailure];
       input_value := input_value w;
       input_disabled := false;
       send_disabled := false;
       container_open := container_open w;
       input_focused := true;
       sent := sent w;
       awaiting := awaiting w |}.
Proof.
  intros Hlog. unfold requestReply_catch_fetch.
  rewrite (classList_add_last w l placeholder)
    by auto using meta_not_in_placeholder.
  erewrite set_textContent_last by reflexivity.
  reflexivity.
Qed.

Lemma catch_json_last w l :
  log w = l ++ [placeholder] →
  requestReply_catch_json (length l) w
  = {| history := history w;
       log := l ++ [settled_row (MalformedBody true)];
       input_value := input_value w;
       input_disabled := false;
       send_disabled := false;
       container_open := container_open w;
       input_focused := true;
       sent := sent w;
       awaiting := awaiting w |}.
Proof.
  intros Hlog. unfold requestReply_catch_json.
  rewrite (classList_add_last w l placeholder)
    by auto using meta_not_in_placeholder.
  erewrite set_textContent_last by reflexivity.
  reflexivity.
Qed.

Lemma after_json_last w l ok payload :
  log w = l ++ [placeholder] →
  requestReply_after_json (length l) ok payload w
  = Normal
      {| history := history w ++ reply_turns (Parsed ok payload);
         log := l ++ [settled_row (Parsed ok payload)];
         input_value := input_value w;
         input_disabled := false;
         send_disabled := false;
         container_open := container_open w;
         input_focused := true;
         sent := sent w;
         awaiting := awaiting w |}.
Proof.
  intros Hlog. unfold requestReply_after_json.
  rewrite reply_failed_spec. simpl.
  destruct (reply_text ok payload) as [t|] eqn:Ht.
  - unfold reply_text in Ht. destruct ok; [|done].
    destruct payload; try done. simpl in Ht |- *.
    destruct (default VUndefined (fields !! lit "text")); try done.
    simpl in Ht. injection Ht as ->. simpl.
    erewrite set_textContent_last by (simpl; exact Hlog).
    erewrite get_textContent_last by reflexivity.
    unfold history_push. simpl. by rewrite app_nil_r || reflexivity.
  - rewrite failure_detail_spec. simpl.
    rewrite (classList_add_last _ l placeholder)
      by (simpl; auto using meta_not_in_placeholder).
    erewrite set_textContent_last by reflexivity.
    simpl. by rewrite app_nil_r.
Qed.

End Stretches.

Section Replies.

Lemma replies_from_app i nodes l1 l2 :
  replies_from i nodes (l1 ++ l2)
  = replies_from i nodes l1 ++ replies_from (i + length l1) nodes l2.
Proof.
  revert i. induction l1 as [|r l1 IH]; intros i; simpl.
  - by rewrite Nat.add_0_r.
  - rewrite IH, <- app_assoc. do 3 f_equal. lia.
Qed.

Lemma replies_from_below i nodes rows :
  (∀ n, n ∈ nodes → i + length rows ≤ n) →
  replies_from i nodes rows = replies_from i [] rows.
Proof.
  revert i. induction rows as [|r rows IH]; intros i Hn; simpl; [done|].
  rewrite IH by (intros n Hin; specialize (Hn n Hin); simpl in Hn; lia).
  rewrite (bool_decide_false (i ∈ nodes)).
  - done.
  - intros Hin. specialize (Hn i Hin). simpl in Hn. lia.
Qed.

Lemma replies_snoc l r :
  replies_from 0 [] (l ++ [r])
  = replies_from 0 [] l ++ (if is_reply_row r then [textContent r] else []).
Proof.
  rewrite replies_from_app. simpl.
  by rewrite andb_true_r, app_nil_r.
Qed.

Lemma assistant_texts_snoc h t :
  assistant_texts (h ++ [t])
  = assistant_texts h
    ++ (if decide (role t = lit "assistant") then [text t] else []).
Proof.
  unfold assistant_texts. rewrite filter_app, fmap_app. f_equal.
  rewrite filter_cons, filter_nil. by destruct (decide _).
Qed.

Lemma displayed_replies_settled w :
  flight w → displayed_replies w = replies_from 0 [] (settled_rows w).
Proof.
  unfold displayed_replies, settled_rows.
  intros [[-> _] | (c & l & -> & _ & -> & Hc)]; simpl; [done|].
  rewrite removelast_last, replies_from_app. simpl.
  rewrite Hc, (bool_decide_true (_ ∈ [_])) by apply list_elem_of_singleton, eq_refl.
  simpl. rewrite app_nil_r.
  apply replies_from_below. intros n ->%list_elem_of_singleton. simpl. lia.
Qed.

End Replies.

Section Frame.

Lemma quiet_refl w : quiet w w.
Proof. by repeat split. Qed.

Lemma quiet_trans w1 w2 w3 : quiet w1 w2 → quiet w2 w3 → quiet w1 w3.
Proof.
  intros (?&?&?&?&?&?) (?&?&?&?&?&?). repeat split; congruence.
Qed.

Lemma input_focus_quiet w : quiet w (input_focus w).
Proof. unfold input_focus. destruct (input_disabled w); by repeat split. Qed.

Lemma toggle_click_quiet w : quiet w (toggle_click w).
Proof.
  unfold toggle_click. simpl. destruct (negb (container_open w)).
  - eapply quiet_trans; [|apply input_focus_quiet]. by repeat split.
  - by repeat split.
Qed.

Lemma step_user_pending e w :
  user_event e = true → send_disabled w = true →
  ∃ w', step e w = Normal w' ∧ quiet w w'.
Proof.
  intros He Hsend. destruct e; try done; simpl; eexists; (split; [done|]).
  - apply toggle_click_quiet.
  - by repeat split.
  - apply input_focus_quiet.
  - by repeat split.
  - rewrite form_submit_ignored by auto. apply quiet_refl.
Qed.

Lemma run_app evs1 evs2 w :
  run (evs1 ++ evs2) w = (let! w' := run evs1 w in run evs2 w').
Proof.
  revert w. induction evs1 as [|e evs1 IH]; intros w; simpl; [done|].
  destruct (step e w); simpl; [apply IH | done].
Qed.

Lemma run_user_pending evs w :
  Forall (λ e, user_event e = true) evs → send_disabled w = true →
  ∃ w', run evs w = Normal w' ∧ quiet w w'.
Proof.
  intros Hevs. revert w. induction Hevs as [|e evs He _ IH]; intros w Hsend.
  - exists w. split; [done | apply quiet_refl].
  - destruct (step_user_pending e w He Hsend) as (w1 & Hstep & Hq).
    destruct (IH w1) as (w2 & Hrun & Hq2).
    { destruct Hq as (_&_&_&_&->&_). done. }
    exists w2. simpl. rewrite Hstep. simpl. split; [done|].
    by eapply quiet_trans.
Qed.

Lemma inv_quiet w w' : quiet w w' → inv w → inv w'.
Proof.
  intros (Hh & Hl & _ & Ha & Hs & Hi) [H1 H2 H3 H4 H5 H6].
  split; unfold flight, settled_rows in *;
    rewrite ?Hh, ?Hl, ?Ha, ?Hs, ?Hi; done.
Qed.

End Frame.

Section Settlements.

Lemma fetch_rejected_settles w l :
  awaiting w = [AwaitFetch (length l)] → log w = l ++ [placeholder] →
  ∃ w', step (FetchRejected 0) w = Normal w' ∧ settles w l TransportFailure w'.
Proof.
  intros Ha Hlog. simpl. rewrite Ha. simpl.
  rewrite (catch_fetch_last _ l) by done.
  eexists. split; [done|]. repeat split; simpl. by rewrite app_nil_r.
Qed.

Lemma fetch_fulfilled_waits w n ok :
  awaiting w = [AwaitFetch n] →
  ∃ w', step (FetchFulfilled 0 ok) w = Normal w'
        ∧ history w' = history w ∧ log w' = log w ∧ sent w' = sent w
        ∧ awaiting w' = [AwaitJson n ok]
        ∧ send_disabled w' = send_disabled w
        ∧ input_disabled w' = input_disabled w.
Proof.
  intros Ha. simpl. rewrite Ha. simpl. eexists. split; [done|]. by repeat split.
Qed.

Lemma json_rejected_settles w l ok :
  awaiting w = [AwaitJson (length l) ok] → log w = l ++ [placeholder] →
  ∃ w', step (JsonRejected 0) w = Normal w' ∧ settles w l (MalformedBody ok) w'.
Proof.
  intros Ha Hlog. simpl. rewrite Ha. simpl.
  rewrite (catch_json_last _ l) by done.
  eexists. split; [done|]. repeat split; simpl. by rewrite app_nil_r.
Qed.

Lemma json_fulfilled_settles w l ok payload :
  awaiting w = [AwaitJson (length l) ok] → log w = l ++ [placeholder] →
  ∃ w', step (JsonFulfilled 0 payload) w = Normal w'
        ∧ settles w l (Parsed ok payload) w'.
Proof.
  intros Ha Hlog. simpl. rewrite Ha. simpl.
  rewrite (after_json_last _ l) by done.
  eexists. split; [done|]. by repeat split.
Qed.

Lemma settled_cases o :
  (reply_turns o = [] ∧ is_reply_row (settled_row o) = false)
  ∨ (∃ s, s ≠ [] ∧ reply_turns o = [Turn (lit "assistant") s]
          ∧ settled_row o = reply_row s).
Proof.
  destruct o as [|ok|ok payload]; simpl; [by left | by left |].
  destruct (reply_text ok payload) as [t|]; [right | by left].
  eexists. split; [|done]. by apply str_or_nonempty.
Qed.

End Settlements.

Section Invariant.

Lemma inv_init : inv init.
Proof.
  split; simpl; try done.
  - by left.
  - repeat constructor.
  - by repeat constructor.
Qed.

Lemma awaiting_lookup w i c :
  flight w → awaiting w !! i = Some c →
  ∃ l, i = 0 ∧ awaiting w = [c] ∧ send_disabled w = true
       ∧ log w = l ++ [placeholder] ∧ node_of c = length l.
Proof.
  intros [[Ha _] | (c' & l & Ha & Hs & Hlog & Hc)] Hi; rewrite Ha in Hi;
    [done|].
  destruct i; simpl in Hi; [|done]. injection Hi as ->. by exists l.
Qed.

Lemma inv_submitted w w' :
  inv w → awaiting w = [] →
  history w' = history w ++ [Turn (lit "user") (trim (input_value w))] →
  log w' = (log w ++ [me_row (trim (input_value w))]) ++ [placeholder] →
  awaiting w' = [AwaitFetch (length (log w ++ [me_row (trim (input_value w))]))] →
  send_disabled w' = true → input_disabled w' = true →
  inv w'.
Proof.
  intros [H1 H2 H3 H4 H5 H6] Ha Hh Hl Ha' Hs Hi.
  unfold settled_rows in H6. rewrite Ha in H6.
  split.
  - congruence.
  - right. eexists _, _. by repeat split.
  - rewrite Hh. destruct (history w); [done | by simpl].
  - rewrite Hh. apply Forall_app. split; [done|].
    apply Forall_singleton. by right; left.
  - rewrite Hh. apply Forall_app. split; [done|]. by apply Forall_singleton.
  - unfold settled_rows. rewrite Hh, Hl, Ha', removelast_last.
    rewrite assistant_texts_snoc, replies_snoc, H6. simpl.
    done.
Qed.

Lemma inv_waiting w w' c c' :
  inv w → awaiting w = [c] → awaiting w' = [c'] → node_of c' = node_of c →
  history w' = history w → log w' = log w →
  send_disabled w' = send_disabled w → input_disabled w' = input_disabled w →
  inv w'.
Proof.
  intros [H1 H2 H3 H4 H5 H6] Ha Ha' Hc Hh Hl Hs Hi.
  unfold settled_rows in H6. rewrite Ha in H6.
  split; unfold settled_rows; rewrite ?Hh, ?Hl, ?Ha', ?Hs, ?Hi; try done.
  destruct H2 as [[Hnil _] | (c0 & l & Ha0 & Hs0 & Hlog & Hc0)];
    [congruence|].
  right. exists c', l. rewrite Hl, Hs. repeat split; try done. congruence.
Qed.

Lemma inv_settles w w' l o :
  inv w → awaiting w ≠ [] → log w = l ++ [placeholder] →
  settles w l o w' → inv w'.
Proof.
  intros [H1 H2 H3 H4 H5 H6] Ha Hlog (Hh & Hl & _ & Ha' & Hs & Hi & _).
  unfold settled_rows in H6.
  destruct (awaiting w) as [|c0 rest] eqn:Haw; [done|].
  rewrite Hlog, removelast_last in H6.
  split; unfold settled_rows; rewrite ?Hh, ?Hl, ?Ha', ?Hs, ?Hi; try done.
  - by left.
  - destruct (history w); [done | by simpl].
  - apply Forall_app. split; [done|].
    destruct (settled_cases o) as [[-> _] | (s & _ & -> & _)]; [done|].
    apply Forall_singleton. by right; right.
  - apply Forall_app. split; [done|].
    destruct (settled_cases o) as [[-> _] | (s & Hne & -> & _)]; [done|].
    by apply Forall_singleton.
  - rewrite replies_snoc, <- H6.
    destruct (settled_cases o) as [[-> ->] | (s & _ & -> & ->)].
    + by rewrite !app_nil_r.
    + by rewrite assistant_texts_snoc.
Qed.

Lemma inv_step e w w' : inv w → step e w = Normal w' → inv w'.
Proof.
  intros Hinv Hstep. pose proof (inv_flight w Hinv) as Hfl.
  destruct e as [|v| | | |i|i ok|i|i payload]; simpl in Hstep.
  - injection Hstep as <-. eapply inv_quiet; [apply toggle_click_quiet | done].
  - injection Hstep as <-. eapply inv_quiet; [|done]. by repeat split.
  - injection Hstep as <-. eapply inv_quiet; [apply input_focus_quiet | done].
  - injection Hstep as <-. eapply inv_quiet; [|done]. by repeat split.
  - injection Hstep as <-.
    destruct (send_disabled w) eqn:Hs.
    { by rewrite form_submit_ignored by auto. }
    destruct (decide (trim (input_value w) = [])) as [Hm | Hm].
    { by rewrite form_submit_ignored by auto. }
    destruct Hfl as [[Ha _] | (c & l & _ & Hs' & _)]; [|congruence].
    rewrite form_submit_idle by done.
    eapply inv_submitted; try done. simpl. by rewrite Ha.
  - destruct (awaiting w !! i) as [c|] eqn:Hi; [|by injection Hstep as <-].
    destruct (awaiting_lookup w i c Hfl Hi) as (l & -> & Ha & Hs & Hlog & Hc).
    destruct c as [n|n ok]; [|by injection Hstep as <-]. simpl in Hc. subst n.
    destruct (fetch_rejected_settles w l Ha Hlog) as (w1 & Hstep1 & Hset).
    simpl in Hstep1. rewrite Hi in Hstep1.
    rewrite Hstep1 in Hstep. injection Hstep as <-.
    eapply inv_settles; [done | | done | done]. by rewrite Ha.
  - destruct (awaiting w !! i) as [c|] eqn:Hi; [|by injection Hstep as <-].
    destruct (awaiting_lookup w i c Hfl Hi) as (l & -> & Ha & Hs & Hlog & Hc).
    destruct c as [n|n ok']; [|by injection Hstep as <-].
    injection Hstep as <-.
    eapply (inv_waiting w _ (AwaitFetch n) (AwaitJson n ok)); try done.
    simpl. by rewrite Ha.
  - destruct (awaiting w !! i) as [c|] eqn:Hi; [|by injection Hstep as <-].
    destruct (awaiting_lookup w i c Hfl Hi) as (l & -> & Ha & Hs & Hlog & Hc).
    destruct c as [n|n ok]; [by injection Hstep as <-|]. simpl in Hc. subst n.
    destruct (json_rejected_settles w l ok Ha Hlog) as (w1 & Hstep1 & Hset).
    simpl in Hstep1. rewrite Hi in Hstep1.
    rewrite Hstep1 in Hstep. injection Hstep as <-.
    eapply inv_settles; [done | | done | done]. by rewrite Ha.
  - destruct (awaiting w !! i) as [c|] eqn:Hi; [|by injection Hstep as <-].
    destruct (awaiting_lookup w i c Hfl Hi) as (l & -> & Ha & Hs & Hlog & Hc).
    destruct c as [n|n ok]; [by injection Hstep as <-|]. simpl in Hc. subst n.
    destruct (json_fulfilled_settles w l ok payload Ha Hlog)
      as (w1 & Hstep1 & Hset).
    simpl in Hstep1. rewrite Hi in Hstep1.
    rewrite Hstep1 in Hstep. injection Hstep as <-.
    eapply inv_settles; [done | | done | done]. by rewrite Ha.
Qed.

Lemma reachable_inv w : reachable w → inv w.
Proof.
  induction 1 as [|e w w' _ IH Hstep]; [apply inv_init | by eapply inv_step].
Qed.

(** [pending] is true exactly while a request is in flight. *)
Lemma pending_iff_in_flight w :
  reachable w → pending w = true ↔ awaiting w ≠ [].
Proof.
  intros Hw. unfold pending.
  destruct (inv_flight w (reachable_inv w Hw))
    as [[-> ->] | (c & l & -> & -> & _)]; by split.
Qed.

End Invariant.

Section Exchanges.

Lemma after_json_normal node ok payload w :
  ∃ w', requestReply_after_json node ok payload w = Normal w'.
Proof.
  unfold requestReply_after_json. rewrite reply_failed_spec. simpl.
  destruct (reply_text ok payload) as [t|] eqn:Ht.
  - unfold reply_text in Ht. destruct ok; [|done].
    destruct payload; try done. simpl in Ht |- *.
    destruct (default VUndefined (fields !! lit "text")); try done.
    simpl. by eexists.
  - rewrite failure_detail_spec. simpl. by eexists.
Qed.

Lemma step_normal e w : ∃ w', step e w = Normal w'.
Proof.
  destruct e as [|v| | | |i|i ok|i|i payload]; simpl; try by eexists.
  - destruct (awaiting w !! i) as [[n|n ok]|]; by eexists.
  - destruct (awaiting w !! i) as [[n|n ok']|]; by eexists.
  - destruct (awaiting w !! i) as [[n|n ok]|]; by eexists.
  - destruct (awaiting w !! i) as [[n|n ok]|]; try by eexists.
    apply after_json_normal.
Qed.

Lemma run_normal evs w : ∃ w', run evs w = Normal w'.
Proof.
  revert w. induction evs as [|e evs IH]; intros w; simpl; [by eexists|].
  destruct (step_normal e w) as [w1 ->]. simpl. apply IH.
Qed.

Lemma run_reachable evs w w' : reachable w → run evs w = Normal w' → reachable w'.
Proof.
  revert w. induction evs as [|e evs IH]; intros w Hw Hrun; simpl in Hrun.
  - by injection Hrun as <-.
  - destruct (step e w) as [w1|] eqn:Hstep; [|done]. simpl in Hrun.
    eapply IH; [|done]. by eapply reachable_step.
Qed.

Lemma idle_awaiting w : flight w → send_disabled w = false → awaiting w = [].
Proof. intros [[Ha _] | (c & l & _ & Hs & _)] Hf; [done | congruence]. Qed.

Lemma exchange_runs w o d1 d2 :
  inv w → accepted w →
  Forall (λ e, user_event e = true) d1 →
  Forall (λ e, user_event e = true) d2 →
  ∃ w', run (exchange o d1 d2) w = Normal w'
        ∧ history w' = history w
                       ++ Turn (lit "user") (trim (input_value w)) :: reply_turns o
        ∧ log w' = log w ++ [me_row (trim (input_value w)); settled_row o]
        ∧ sent w' = sent w ++ [chat_request
                       (history w ++ [Turn (lit "user") (trim (input_value w))])]
        ∧ awaiting w' = []
        ∧ send_disabled w' = false
        ∧ input_disabled w' = false
        ∧ input_focused w' = true.
Proof.
  intros Hinv [Hp Hm] Hd1 Hd2. unfold pending in Hp.
  pose proof (idle_awaiting w (inv_flight w Hinv) Hp) as Hidle.
  unfold exchange. cbn [run step bind].
  rewrite form_submit_idle by done. rewrite Hidle. cbn [app].
  set (msg := trim (input_value w)).
  set (l := log w ++ [me_row msg]).
  match goal with |- context [run _ ?x] => set (w1 := x) end.
  rewrite run_app.
  destruct (run_user_pending d1 w1 Hd1 eq_refl) as (w2 & -> & Hq).
  destruct Hq as (Hh2 & Hl2 & Hsent2 & Ha2 & Hs2 & Hi2).
  cbn [bind]. simpl in Hh2, Hl2, Hsent2, Ha2, Hs2, Hi2.
  destruct o as [|ok|ok payload].
  - destruct (fetch_rejected_settles w2 l Ha2 Hl2) as (w3 & Hstep & Hset).
    cbn [run bind]. rewrite Hstep. cbn [bind].
    exists w3. split; [done|].
    destruct Hset as (-> & -> & -> & -> & -> & -> & ->).
    rewrite Hh2, Hsent2. subst l. by rewrite <- !app_assoc.
  - destruct (fetch_fulfilled_waits w2 (length l) ok Ha2)
      as (w3 & Hstep & Hh3 & Hl3 & Hsent3 & Ha3 & Hs3 & Hi3).
    cbn [run bind]. rewrite Hstep. cbn [bind]. rewrite run_app.
    destruct (run_user_pending d2 w3 Hd2) as (w4 & -> & Hq); [congruence|].
    destruct Hq as (Hh4 & Hl4 & Hsent4 & Ha4 & Hs4 & Hi4).
    rewrite Ha3 in Ha4. rewrite Hl3, Hl2 in Hl4.
    destruct (json_rejected_settles w4 l ok Ha4 Hl4) as (w5 & Hstep5 & Hset).
    cbn [run bind]. rewrite Hstep5. cbn [bind].
    exists w5. split; [done|].
    destruct Hset as (-> & -> & -> & -> & -> & -> & ->).
    rewrite Hh4, Hh3, Hh2, Hsent4, Hsent3, Hsent2. subst l.
    by rewrite <- !app_assoc.
  - destruct (fetch_fulfilled_waits w2 (length l) ok Ha2)
      as (w3 & Hstep & Hh3 & Hl3 & Hsent3 & Ha3 & Hs3 & Hi3).
    cbn [run bind]. rewrite Hstep. cbn [bind]. rewrite run_app.
    destruct (run_user_pending d2 w3 Hd2) as (w4 & -> & Hq); [congruence|].
    destruct Hq as (Hh4 & Hl4 & Hsent4 & Ha4 & Hs4 & Hi4).
    rewrite Ha3 in Ha4. rewrite Hl3, Hl2 in Hl4.
    destruct (json_fulfilled_settles w4 l ok payload Ha4 Hl4)
      as (w5 & Hstep5 & Hset).
    cbn [run bind]. rewrite Hstep5. cbn [bind].
    exists w5. split; [done|].
    destruct Hset as (-> & -> & -> & -> & -> & -> & ->).
    rewrite Hh4, Hh3, Hh2, Hsent4, Hsent3, Hsent2. subst l.
    by rewrite <- !app_assoc.
Qed.

End Exchanges.

Section History.

Lemma history_classList_add node token w :
  history (classList_add node token w) = history w.
Proof.
  unfold classList_add. destruct (log w !! node) as [r|]; [|done].
  by destruct (bool_decide _).
Qed.

Lemma history_set_textContent node t w :
  history (set_textContent node t w) = history w.
Proof. unfold set_textContent. by destruct (log w !! node). Qed.

Lemma history_setPending b w : history (setPending b w) = history w.
Proof.
  unfold setPending, input_set_disabled, input_focus.
  destruct b; simpl; [done|]. reflexivity.
Qed.

Lemma history_after_json node ok payload w w' :
  requestReply_after_json node ok payload w = Normal w' →
  history w `prefix_of` history w'.
Proof.
  unfold requestReply_after_json. rewrite reply_failed_spec. simpl.
  destruct (reply_text ok payload) as [t|] eqn:Ht.
  - unfold reply_text in Ht. destruct ok; [|done].
    destruct payload; try done. simpl in Ht |- *.
    destruct (default VUndefined (fields !! lit "text")); try done.
    simpl. intros [= <-]. unfold history_push. simpl.
    rewrite history_set_textContent. by apply prefix_app_r.
  - rewrite failure_detail_spec. simpl. intros [= <-].
    by rewrite history_set_textContent, history_classList_add.
Qed.

Lemma step_prefix e w w' :
  step e w = Normal w' → history w `prefix_of` history w'.
Proof.
  destruct e as [|v| | | |i|i ok|i|i payload]; simpl.
  - intros [= <-]. by destruct (toggle_click_quiet w) as (-> & _).
  - by intros [= <-].
  - intros [= <-]. by destruct (input_focus_quiet w) as (-> & _).
  - by intros [= <-].
  - intros [= <-]. unfold form_submit.
    destruct (_ || _); [done|]. by apply prefix_app_r.
  - destruct (awaiting w !! i) as [[n|n ok]|]; intros [= <-]; try done.
    unfold requestReply_catch_fetch.
    by rewrite history_setPending, history_set_textContent,
      history_classList_add.
  - by destruct (awaiting w !! i) as [[n|n ok']|]; intros [= <-].
  - destruct (awaiting w !! i) as [[n|n ok]|]; intros [= <-]; try done.
    unfold requestReply_catch_json.
    by rewrite history_setPending, history_set_textContent,
      history_classList_add.
  - destruct (awaiting w !! i) as [[n|n ok]|]; try by intros [= <-].
    intros Hafter. by apply history_after_json in Hafter.
Qed.

Lemma run_prefix evs w w' :
  run evs w = Normal w' → history w `prefix_of` history w'.
Proof.
  revert w. induction evs as [|e evs IH]; intros w; simpl.
  - by intros [= <-].
  - destruct (step e w) as [w1|] eqn:Hstep; [|done]. simpl. intros Hrun.
    etrans; [by eapply step_prefix | by apply IH].
Qed.

End History.

Section Samples.

Lemma reachable_asked : reachable asked.
Proof.
  apply (reachable_step (Edit (lit "  What does this particle mean? ")) init);
    [apply reachable_init | reflexivity].
Qed.

Lemma accepted_asked : accepted asked.
Proof. split; [reflexivity | by vm_compute]. Qed.

Lemma run_answered :
  run (exchange (Parsed true hello) [Click] [Click]) asked = Normal answered.
Proof. by vm_compute. Qed.

Lemma placeholder_node_lookup w (x y : row) :
  (log w ++ [x; y]) !! placeholder_node w = Some y.
Proof.
  unfold placeholder_node.
  rewrite lookup_app_r by lia.
  by replace (S (length (log w)) - length (log w)) with 1 by lia.
Qed.

End Samples.

(** ** The claims *)

(** C3. When the trimmed input is non-empty (and no request is pending, so
    that the listener lets the submit through), the submit appends exactly
    one entry to [history], a user turn holding the trimmed input, and
    issues exactly one request whose body carries the history as it is
    after that append: the body's history ends with the new user turn. *)
Theorem submit_pushes_user_turn_before_fetch (w : widget) :
  pending w = false →
  trim (input_value w) ≠ [] →
  ∃ w' req,
    step Submit w = Normal w'
    ∧ history w' = history w ++ [Turn (lit "user") (trim (input_value w))]
    ∧ sent w' = sent w ++ [req]
    ∧ body_history req = history w'
    ∧ last (body_history req) = Some (Turn (lit "user") (trim (input_value w))).
Proof.
  intros Hp Hm. unfold pending in Hp. simpl.
  rewrite form_submit_idle by done.
  eexists _, _. split; [done|]. simpl. repeat split.
  apply last_snoc.
Qed.

Lemma submit_pushes_user_turn_before_fetch_witness :
  ∃ w' req,
    step Submit asked = Normal w'
    ∧ history w' = history asked
                   ++ [Turn (lit "user") (trim (input_value asked))]
    ∧ sent w' = sent asked ++ [req]
    ∧ body_history req = history w'
    ∧ last (body_history req)
      = Some (Turn (lit "user") (trim (input_value asked))).
Proof.
  apply (submit_pushes_user_turn_before_fetch asked);
    [reflexivity | by vm_compute].
Defined.

(** C5. An exchange whose [fetch] rejects leaves [history] one entry longer
    than before, the user turn, and its placeholder row carries the class
    [meta] and the text "Network error. Please try again.". *)
Theorem transport_failure_keeps_user_turn_only
    (w : widget) (during1 during2 : list event) :
  reachable w →
  accepted w →
  Forall (λ e, user_event e = true) during1 →
  ∃ w',
    run (exchange TransportFailure during1 during2) w = Normal w'
    ∧ length (history w') = length (history w) + 1
    ∧ history w' = history w ++ [Turn (lit "user") (trim (input_value w))]
    ∧ lit "meta" ∈ classes w' (placeholder_node w)
    ∧ displayed w' (placeholder_node w)
      = Some (lit "Network error. Please try again.").
Proof.
  intros Hw Hacc Hd1.
  destruct (exchange_runs w TransportFailure during1 [] (reachable_inv w Hw)
              Hacc Hd1 (Forall_nil_2 _))
    as (w' & Hrun & Hh & Hl & _).
  exists w'. split; [exact Hrun|]. simpl in Hh, Hl.
  unfold classes, displayed. rewrite Hh, Hl, placeholder_node_lookup.
  rewrite length_app. simpl. repeat split.
  apply (bool_decide_unpack _). by vm_compute.
Qed.

Lemma transport_failure_keeps_user_turn_only_witness :
  ∃ w',
    run (exchange TransportFailure [Click; Submit] []) asked = Normal w'
    ∧ length (history w') = length (history asked) + 1
    ∧ history w' = history asked
                   ++ [Turn (lit "user") (trim (input_value asked))]
    ∧ lit "meta" ∈ classes w' (placeholder_node asked)
    ∧ displayed w' (placeholder_node asked)
      = Some (lit "Network error. Please try again.").
Proof.
  apply (transport_failure_keeps_user_turn_only asked [Click; Submit] []);
    [apply reachable_asked | apply accepted_asked | by repeat constructor].
Defined.

(** C6. A submit while a request is pending, and a submit of an input that
    trims to the empty string, changes nothing: the whole state is as it
    was, so [history] is unchanged, no request is issued and the log is not
    touched. *)
Theorem ignored_submit_is_noop (w : widget) :
  pending w = true ∨ trim (input_value w) = [] →
  ∃ w',
    step Submit w = Normal w'
    ∧ w' = w
    ∧ history w' = history w
    ∧ sent w' = sent w
    ∧ log w' = log w.
Proof.
  intros Hig. exists w. simpl. by rewrite form_submit_ignored.
Qed.

Lemma ignored_submit_is_noop_witness :
  ∃ w',
    step Submit init = Normal w'
    ∧ w' = init
    ∧ history w' = history init
    ∧ sent w' = sent init
    ∧ log w' = log init.
Proof.
  apply (ignored_submit_is_noop init). right. reflexivity.
Defined.

(** C7. Whatever the outcome of an exchange (the transport fails, the body
    cannot be parsed, or it is parsed, as a failure or as a success), the
    exchange runs to its end without an error escaping, and then [pending]
    is false and the input is enabled and has the focus. No sequence of
    events makes an error escape the widget's code. *)
Theorem exchange_restores_interactivity
    (w : widget) (o : outcome) (during1 during2 : list event) :
  reachable w →
  accepted w →
  Forall (λ e, user_event e = true) during1 →
  Forall (λ e, user_event e = true) during2 →
  (∃ w',
     run (exchange o during1 during2) w = Normal w'
     ∧ pending w' = false
     ∧ input_disabled w' = false
     ∧ input_focused w' = true)
  ∧ (∀ evs, ∃ w', run evs w = Normal w').
Proof.
  intros Hw Hacc Hd1 Hd2. split; [|intros evs; apply run_normal].
  destruct (exchange_runs w o during1 during2 (reachable_inv w Hw)
              Hacc Hd1 Hd2)
    as (w' & Hrun & _ & _ & _ & _ & Hs & Hi & Hf).
  exists w'. by repeat split.
Qed.

Lemma exchange_restores_interactivity_witness :
  (∃ w',
     run (exchange (Parsed false rate_limited) [Blur; Click] [Submit]) asked
     = Normal w'
     ∧ pending w' = false
     ∧ input_disabled w' = false
     ∧ input_focused w' = true)
  ∧ (∀ evs, ∃ w', run evs asked = Normal w').
Proof.
  apply (exchange_restores_interactivity asked (Parsed false rate_limited)
           [Blur; Click] [Submit]);
    [apply reachable_asked | apply accepted_asked
    | by repeat constructor | by repeat constructor].
Defined.

(** C4. On a success response (status ok, body an object whose [text] is a
    string): if the trimmed text is non-empty, the row shows the trimmed
    text and [history] grows by exactly two entries, the user turn and then
    an assistant turn with the trimmed text; if the text trims to the empty
    string, the row shows "I do not have an answer right now." and it is
    that phrase, not the empty string, that the assistant turn holds. *)
Theorem success_shows_and_records_reply
    (w : widget) (during1 during2 : list event)
    (fields : gmap jsstring value) (t : jsstring) :
  reachable w →
  accepted w →
  Forall (λ e, user_event e = true) during1 →
  Forall (λ e, user_event e = true) during2 →
  fields !! lit "text" = Some (VStr t) →
  ∃ w',
    run (exchange (Parsed true (VObj fields)) during1 during2) w = Normal w'
    ∧ length (history w') = length (history w) + 2
    ∧ (trim t ≠ [] →
       displayed w' (placeholder_node w) = Some (trim t)
       ∧ history w' = history w
                      ++ [Turn (lit "user") (trim (input_value w));
                          Turn (lit "assistant") (trim t)])
    ∧ (trim t = [] →
       displayed w' (placeholder_node w)
       = Some (lit "I do not have an answer right now.")
       ∧ history w' = history w
                      ++ [Turn (lit "user") (trim (input_value w));
                          Turn (lit "assistant")
                               (lit "I do not have an answer right now.")]).
Proof.
  intros Hw Hacc Hd1 Hd2 Htext.
  destruct (exchange_runs w (Parsed true (VObj fields)) during1 during2
              (reachable_inv w Hw) Hacc Hd1 Hd2)
    as (w' & Hrun & Hh & Hl & _).
  exists w'. split; [exact Hrun|].
  simpl in Hh, Hl. rewrite Htext in Hh, Hl. simpl in Hh, Hl.
  unfold displayed. rewrite Hh, Hl, placeholder_node_lookup, length_app.
  simpl. split; [done|]. split.
  - intros Hne. by rewrite str_or_l.
  - intros ->. done.
Qed.

Lemma success_shows_and_records_reply_witness :
  ∃ w',
    run (exchange (Parsed true hello) [Click] [Click]) asked = Normal w'
    ∧ length (history w') = length (history asked) + 2
    ∧ (trim (lit "  Hello!  ") ≠ [] →
       displayed w' (placeholder_node asked) = Some (trim (lit "  Hello!  "))
       ∧ history w' = history asked
                      ++ [Turn (lit "user") (trim (input_value asked));
                          Turn (lit "assistant") (trim (lit "  Hello!  "))])
    ∧ (trim (lit "  Hello!  ") = [] →
       displayed w' (placeholder_node asked)
       = Some (lit "I do not have an answer right now.")
       ∧ history w' = history asked
                      ++ [Turn (lit "user") (trim (input_value asked));
                          Turn (lit "assistant")
                               (lit "I do not have an answer right now.")]).
Proof.
  apply (success_shows_and_records_reply asked [Click] [Click]
           {[ lit "text" := VStr (lit "  Hello!  ") ]} (lit "  Hello!  "));
    [apply reachable_asked | apply accepted_asked
    | by repeat constructor | by repeat constructor | by vm_compute].
Defined.

(** C2. With the body [{ error: "rate_limited" }] and a status that is not
    ok, the row shows exactly "Could not get a reply (rate_limited)." and
    [history] grows by the user turn alone; with the body
    [{ details: { error: { message: "bad token" } } }], whatever the
    status, the row shows exactly "Could not get a reply (bad token).". *)
Theorem sample_failures_are_displayed
    (w : widget) (during1 during2 : list event) :
  reachable w →
  accepted w →
  Forall (λ e, user_event e = true) during1 →
  Forall (λ e, user_event e = true) during2 →
  (∃ w',
     run (exchange (Parsed false rate_limited) during1 during2) w = Normal w'
     ∧ displayed w' (placeholder_node w)
       = Some (lit "Could not get a reply (rate_limited).")
     ∧ length (history w') = length (history w) + 1
     ∧ history w' = history w ++ [Turn (lit "user") (trim (input_value w))])
  ∧ (∀ ok, ∃ w',
       run (exchange (Parsed ok bad_token) during1 during2) w = Normal w'
       ∧ displayed w' (placeholder_node w)
         = Some (lit "Could not get a reply (bad token).")).
Proof.
  intros Hw Hacc Hd1 Hd2. split.
  - destruct (exchange_runs w (Parsed false rate_limited) during1 during2
                (reachable_inv w Hw) Hacc Hd1 Hd2)
      as (w' & Hrun & Hh & Hl & _).
    exists w'. split; [exact Hrun|].
    unfold displayed. rewrite Hh, Hl, placeholder_node_lookup, length_app.
    repeat split.
  - intros ok.
    destruct (exchange_runs w (Parsed ok bad_token) during1 during2
                (reachable_inv w Hw) Hacc Hd1 Hd2)
      as (w' & Hrun & _ & Hl & _).
    exists w'. split; [exact Hrun|].
    unfold displayed. rewrite Hl, placeholder_node_lookup.
    by destruct ok.
Qed.

Lemma sample_failures_are_displayed_witness :
  (∃ w',
     run (exchange (Parsed false rate_limited) [] [Edit (lit "again")]) asked
     = Normal w'
     ∧ displayed w' (placeholder_node asked)
       = Some (lit "Could not get a reply (rate_limited).")
     ∧ length (history w') = length (history asked) + 1
     ∧ history w' = history asked
                    ++ [Turn (lit "user") (trim (input_value asked))])
  ∧ (∀ ok, ∃ w',
       run (exchange (Parsed ok bad_token) [] [Edit (lit "again")]) asked
       = Normal w'
       ∧ displayed w' (placeholder_node asked)
         = Some (lit "Could not get a reply (bad token).")).
Proof.
  apply (sample_failures_are_displayed asked [] [Edit (lit "again")]);
    [apply reachable_asked | apply accepted_asked
    | by repeat constructor | by repeat constructor].
Defined.

(** C9. When the body parses to [null], the exchange does not end on the
    malformed-body path: the row shows exactly "Could not get a reply.",
    without detail, not "Invalid response from server.", and nothing but
    the user turn is appended to [history]. *)
Theorem null_body_is_application_failure
    (w : widget) (during1 during2 : list event) (ok : bool) :
  reachable w →
  accepted w →
  Forall (λ e, user_event e = true) during1 →
  Forall (λ e, user_event e = true) during2 →
  ∃ w',
    run (exchange (Parsed ok VNull) during1 during2) w = Normal w'
    ∧ displayed w' (placeholder_node w) = Some (lit "Could not get a reply.")
    ∧ displayed w' (placeholder_node w)
      ≠ Some (lit "Invalid response from server.")
    ∧ history w' = history w ++ [Turn (lit "user") (trim (input_value w))].
Proof.
  intros Hw Hacc Hd1 Hd2.
  destruct (exchange_runs w (Parsed ok VNull) during1 during2
              (reachable_inv w Hw) Hacc Hd1 Hd2)
    as (w' & Hrun & Hh & Hl & _).
  exists w'. split; [exact Hrun|].
  unfold displayed. rewrite Hh, Hl, placeholder_node_lookup.
  destruct ok; by repeat split.
Qed.

Lemma null_body_is_application_failure_witness :
  ∃ w',
    run (exchange (Parsed true VNull) [Focus] [Blur]) asked = Normal w'
    ∧ displayed w' (placeholder_node asked)
      = Some (lit "Could not get a reply.")
    ∧ displayed w' (placeholder_node asked)
      ≠ Some (lit "Invalid response from server.")
    ∧ history w' = history asked
                   ++ [Turn (lit "user") (trim (input_value asked))].
Proof.
  apply (null_body_is_application_failure asked [Focus] [Blur] true);
    [apply reachable_asked | apply accepted_asked
    | by repeat constructor | by repeat constructor].
Defined.

Section Failures.

Lemma no_string_text ok payload :
  ok = false ∨ (∀ t, getProp payload (lit "text") ≠ Normal (VStr t)) →
  reply_text ok payload = None.
Proof.
  intros [-> | Hno]; [done|]. unfold reply_text. destruct ok; [|done].
  destruct payload; try done. simpl in *.
  destruct (default VUndefined (fields !! lit "text")); try done.
  by destruct (Hno s).
Qed.

End Failures.

(** C1, as the code has it. When the response is parsed and either its
    status is not ok or its body has no string [text], the row shows
    "Could not get a reply", then the detail in parentheses if there is
    one, then a full stop. The detail is the trimmed top-level [message]
    when that is a string which trimming leaves non-empty; else, when the
    top-level [error] is truthy, [error] itself if it is a string, and no
    detail if it is not: the search ends there; else, when [details.error]
    is truthy, that value if it is a string, or its [message] if that is a
    string; and no detail in every other case. *)
Theorem failure_shows_designed_detail
    (w : widget) (during1 during2 : list event) (ok : bool) (payload : value) :
  reachable w →
  accepted w →
  Forall (λ e, user_event e = true) during1 →
  Forall (λ e, user_event e = true) during2 →
  ok = false ∨ (∀ t, getProp payload (lit "text") ≠ Normal (VStr t)) →
  ∃ w',
    run (exchange (Parsed ok payload) during1 during2) w = Normal w'
    ∧ displayed w' (placeholder_node w)
      = Some (lit "Could not get a reply"
                ++ suffix (designed_detail payload) ++ lit ".").
Proof.
  intros Hw Hacc Hd1 Hd2 Hfail.
  destruct (exchange_runs w (Parsed ok payload) during1 during2
              (reachable_inv w Hw) Hacc Hd1 Hd2)
    as (w' & Hrun & _ & Hl & _).
  exists w'. split; [exact Hrun|].
  unfold displayed. rewrite Hl, placeholder_node_lookup.
  simpl. by rewrite (no_string_text ok payload Hfail).
Qed.

Lemma failure_shows_designed_detail_witness :
  ∃ w',
    run (exchange (Parsed false coded_error) [Click] []) asked = Normal w'
    ∧ displayed w' (placeholder_node asked)
      = Some (lit "Could not get a reply"
                ++ suffix (designed_detail coded_error) ++ lit ".").
Proof.
  apply (failure_shows_designed_detail asked [Click] [] false coded_error);
    [apply reachable_asked | apply accepted_asked
    | by repeat constructor | by repeat constructor | by left].
Defined.

(** C1, as it is worded, fails. The body
    [{ "error": { "code": "E429" }, "details": { "error": "quota exceeded" } }]
    has a top-level [error] that is not a string; the wording lets the
    search go on to [details.error] and gives the detail "quota exceeded",
    while the row shows "Could not get a reply." without any detail. *)
Lemma described_detail_not_displayed :
  ∃ w',
    run (exchange (Parsed false coded_error) [] []) asked = Normal w'
    ∧ displayed w' (placeholder_node asked)
      = Some (lit "Could not get a reply.")
    ∧ described_detail coded_error = Some (lit "quota exceeded")
    ∧ displayed w' (placeholder_node asked)
      ≠ Some (lit "Could not get a reply"
                ++ suffix (described_detail coded_error) ++ lit ".").
Proof.
  eexists. split; [by vm_compute|]. by vm_compute.
Qed.

(** C8. [history] is append-only: over any sequence of events, the history
    before is a prefix of the history after, so no entry is removed or
    moved. Its first element is the system turn of the initial state, and
    every entry has the role "system", "user" or "assistant". *)
Theorem history_is_append_only (w : widget) (evs : list event) (w' : widget) :
  reachable w →
  run evs w = Normal w' →
  history w `prefix_of` history w'
  ∧ head (history w') = Some system_turn
  ∧ Forall known_role (history w').
Proof.
  intros Hw Hrun. split; [by eapply run_prefix|].
  pose proof (reachable_inv w' (run_reachable evs w w' Hw Hrun)) as Hinv.
  split; [apply (inv_head w' Hinv) | apply (inv_roles w' Hinv)].
Qed.

Lemma history_is_append_only_witness :
  history asked `prefix_of` history answered
  ∧ head (history answered) = Some system_turn
  ∧ Forall known_role (history answered).
Proof.
  apply (history_is_append_only asked
           (exchange (Parsed true hello) [Click] [Click]) answered);
    [apply reachable_asked | by vm_compute].
Defined.

(** C10. In every reachable state, every assistant turn of [history] has a
    non-empty text, and the texts of the assistant turns are, in order,
    the texts on display in the reply rows of the log (the [bot] rows that
    are not marked [meta], the placeholder of a request in flight apart). *)
Theorem assistant_turns_match_display (w : widget) :
  reachable w →
  Forall (λ t, role t = lit "assistant" → text t ≠ []) (history w)
  ∧ assistant_texts (history w) = displayed_replies w.
Proof.
  intros Hw. pose proof (reachable_inv w Hw) as Hinv. split.
  - apply (inv_texts w Hinv).
  - rewrite displayed_replies_settled by apply (inv_flight w Hinv).
    apply (inv_replies w Hinv).
Qed.

Lemma assistant_turns_match_display_witness :
  Forall (λ t, role t = lit "assistant" → text t ≠ []) (history answered)
  ∧ assistant_texts (history answered) = displayed_replies answered.
Proof.
  apply (assistant_turns_match_display answered).
  apply (run_reachable (exchange (Parsed true hello) [Click] [Click]) asked);
    [apply reachable_asked | by vm_compute].
Defined.

(** ** Further properties of the code *)

Section Trimming.

Lemma trimStart_suffix s : ∃ pre, s = pre ++ trimStart s.
Proof.
  induction s as [|c s [pre IH]]; simpl; [by exists []|].
  destruct (isWhiteSpace c); [|by exists []].
  exists (c :: pre). simpl. by rewrite <- IH.
Qed.

Lemma trimStart_starts_clean s : starts_clean (trimStart s).
Proof.
  induction s as [|c s IH]; simpl; [done|].
  destruct (isWhiteSpace c) eqn:Hc; [done|]. unfold starts_clean. by simpl.
Qed.

Lemma trimStart_id s : starts_clean s → trimStart s = s.
Proof.
  destruct s as [|c s]; [done|]. unfold starts_clean. simpl. by intros ->.
Qed.

Lemma trimStart_ends_clean s : ends_clean s → ends_clean (trimStart s).
Proof.
  unfold ends_clean. destruct (trimStart_suffix s) as [pre Hs].
  destruct (trimStart s) as [|c r] eqn:Ht; [done|].
  rewrite Hs at 1. by rewrite last_app_cons.
Qed.

Lemma starts_clean_reverse s : ends_clean s → starts_clean (reverse s).
Proof. unfold starts_clean, ends_clean. by rewrite head_reverse. Qed.

Lemma ends_clean_reverse s : starts_clean s → ends_clean (reverse s).
Proof. unfold starts_clean, ends_clean. by rewrite last_reverse. Qed.

Lemma trim_starts_clean s : starts_clean (trim s).
Proof.
  unfold trim, trimEnd. apply starts_clean_reverse, trimStart_ends_clean.
  apply ends_clean_reverse, trimStart_starts_clean.
Qed.

Lemma trim_ends_clean s : ends_clean (trim s).
Proof.
  unfold trim, trimEnd. apply ends_clean_reverse, trimStart_starts_clean.
Qed.

Lemma trim_id s : starts_clean s → ends_clean s → trim s = s.
Proof.
  intros Hs He. unfold trim, trimEnd.
  rewrite (trimStart_id s Hs).
  rewrite trimStart_id by by apply starts_clean_reverse.
  apply reverse_involutive.
Qed.

Lemma trim_idempotent s : trim (trim s) = trim s.
Proof. apply trim_id; [apply trim_starts_clean | apply trim_ends_clean]. Qed.

Lemma fallback_clean : fallback ≠ [] ∧ starts_clean fallback ∧ ends_clean fallback.
Proof. by vm_compute. Qed.

Lemma shown_reply_clean t :
  str_or (trim t) fallback ≠ []
  ∧ starts_clean (str_or (trim t) fallback)
  ∧ ends_clean (str_or (trim t) fallback).
Proof.
  destruct (trim t) as [|c r] eqn:Ht; simpl; [apply fallback_clean|].
  rewrite <- Ht. repeat split.
  - by rewrite Ht.
  - apply trim_starts_clean.
  - apply trim_ends_clean.
Qed.

End Trimming.

Section Transitions.

Lemma step_transition e w w' : inv w → step e w = Normal w' → transition w w'.
Proof.
  intros Hinv Hstep. pose proof (inv_flight w Hinv) as Hfl.
  destruct e as [|v| | | |i|i ok|i|i payload]; simpl in Hstep.
  - injection Hstep as <-. apply tr_quiet, toggle_click_quiet.
  - injection Hstep as <-. apply tr_quiet. by repeat split.
  - injection Hstep as <-. apply tr_quiet, input_focus_quiet.
  - injection Hstep as <-. apply tr_quiet. by repeat split.
  - injection Hstep as <-.
    destruct (send_disabled w) eqn:Hs.
    { rewrite form_submit_ignored by auto. apply tr_quiet, quiet_refl. }
    destruct (decide (trim (input_value w) = [])) as [Hm | Hm].
    { rewrite form_submit_ignored by auto. apply tr_quiet, quiet_refl. }
    pose proof (idle_awaiting w Hfl Hs) as Ha.
    rewrite form_submit_idle by done.
    apply tr_submit; try done. simpl. by rewrite Ha.
  - destruct (awaiting w !! i) as [c|] eqn:Hi;
      [|injection Hstep as <-; apply tr_quiet, quiet_refl].
    destruct (awaiting_lookup w i c Hfl Hi) as (l & -> & Ha & Hs & Hlog & Hc).
    destruct c as [n|n ok];
      [|injection Hstep as <-; apply tr_quiet, quiet_refl].
    simpl in Hc. subst n.
    destruct (fetch_rejected_settles w l Ha Hlog) as (w1 & Hstep1 & Hset).
    simpl in Hstep1. rewrite Hi in Hstep1.
    rewrite Hstep1 in Hstep. injection Hstep as <-.
    apply (tr_settle w w1 l TransportFailure); [by rewrite Ha | done | done].
  - destruct (awaiting w !! i) as [c|] eqn:Hi;
      [|injection Hstep as <-; apply tr_quiet, quiet_refl].
    destruct (awaiting_lookup w i c Hfl Hi) as (l & -> & Ha & Hs & Hlog & Hc).
    destruct c as [n|n ok'];
      [|injection Hstep as <-; apply tr_quiet, quiet_refl].
    injection Hstep as <-.
    apply (tr_wait w _ n ok); try done. simpl. by rewrite Ha.
  - destruct (awaiting w !! i) as [c|] eqn:Hi;
      [|injection Hstep as <-; apply tr_quiet, quiet_refl].
    destruct (awaiting_lookup w i c Hfl Hi) as (l & -> & Ha & Hs & Hlog & Hc).
    destruct c as [n|n ok];
      [injection Hstep as <-; apply tr_quiet, quiet_refl|].
    simpl in Hc. subst n.
    destruct (json_rejected_settles w l ok Ha Hlog) as (w1 & Hstep1 & Hset).
    simpl in Hstep1. rewrite Hi in Hstep1.
    rewrite Hstep1 in Hstep. injection Hstep as <-.
    apply (tr_settle w w1 l (MalformedBody ok)); [by rewrite Ha | done | done].
  - destruct (awaiting w !! i) as [c|] eqn:Hi;
      [|injection Hstep as <-; apply tr_quiet, quiet_refl].
    destruct (awaiting_lookup w i c Hfl Hi) as (l & -> & Ha & Hs & Hlog & Hc).
    destruct c as [n|n ok];
      [injection Hstep as <-; apply tr_quiet, quiet_refl|].
    simpl in Hc. subst n.
    destruct (json_fulfilled_settles w l ok payload Ha Hlog)
      as (w1 & Hstep1 & Hset).
    simpl in Hstep1. rewrite Hi in Hstep1.
    rewrite Hstep1 in Hstep. injection Hstep as <-.
    apply (tr_settle w w1 l (Parsed ok payload)); [by rewrite Ha | done | done].
Qed.

End Transitions.

Section Conversation.

Lemma settled_forms o :
  (reply_turns o = [] ∧ ∃ t, settled_row o = meta_row t)
  ∨ (∃ t, reply_turns o = [Turn (lit "assistant") (str_or (trim t) fallback)]
          ∧ settled_row o = reply_row (str_or (trim t) fallback)).
Proof.
  destruct o as [|ok|ok payload]; simpl;
    [left; split; [done | by eexists] | left; split; [done | by eexists] |].
  destruct (reply_text ok payload) as [t|]; [right; by exists t|].
  left. split; [done | by eexists].
Qed.

Lemma me_row_is_me m : is_me_row (me_row m).
Proof. apply (bool_decide_unpack _). by vm_compute. Qed.

Lemma reply_row_not_me t : ¬ is_me_row (reply_row t).
Proof. apply (bool_decide_eq_false_1 _). by vm_compute. Qed.

Lemma meta_row_not_me t : ¬ is_me_row (meta_row t).
Proof. apply (bool_decide_eq_false_1 _). by vm_compute. Qed.

Lemma filter_me_snoc_other l r :
  ¬ is_me_row r → filter is_me_row (l ++ [r]) = filter is_me_row l.
Proof.
  intros Hr. rewrite filter_app, filter_cons_False, filter_nil by done.
  apply app_nil_r.
Qed.

Lemma filter_user_snoc_other h t :
  role t ≠ lit "user" → filter is_user (h ++ [t]) = filter is_user h.
Proof.
  intros Hr. rewrite filter_app, filter_cons_False, filter_nil by done.
  apply app_nil_r.
Qed.

Lemma filter_user_snoc_user h t :
  role t = lit "user" → filter is_user (h ++ [t]) = filter is_user h ++ [t].
Proof.
  intros Hr. by rewrite filter_app, filter_cons_True, filter_nil.
Qed.

Lemma answers_snoc_other h t :
  answers_follow_questions h → role t ≠ lit "assistant" →
  answers_follow_questions (h ++ [t]).
Proof.
  intros Hh Ht i t' Hi Hr.
  apply lookup_app_Some in Hi as [Hi | [_ Hi]].
  - destruct (Hh i t' Hi Hr) as (j & u & -> & Hj & Hu).
    exists j, u. repeat split; [|done]. by apply lookup_app_l_Some.
  - apply list_lookup_singleton_Some in Hi as [_ <-]. done.
Qed.

Lemma answers_snoc_answer h u t :
  answers_follow_questions (h ++ [u]) → role u = lit "user" →
  answers_follow_questions ((h ++ [u]) ++ [t]).
Proof.
  intros Hh Hu i t' Hi Hr.
  apply lookup_app_Some in Hi as [Hi | [Hlen Hi]].
  - destruct (Hh i t' Hi Hr) as (j & u' & -> & Hj & Hu').
    exists j, u'. repeat split; [|done]. by apply lookup_app_l_Some.
  - apply list_lookup_singleton_Some in Hi as [Hi _].
    rewrite length_app in Hlen, Hi. simpl in Hlen, Hi.
    exists (length h), u. repeat split; [lia | | done].
    rewrite <- app_assoc. by apply list_lookup_middle.
Qed.

Lemma well_formed_request_later h h' r :
  h `prefix_of` h' → well_formed_request h r → well_formed_request h' r.
Proof.
  intros Hpre (Hr & Hb & Hu). repeat split; [done | by etrans | done].
Qed.

Lemma conversation_init : conversation init.
Proof.
  split; simpl; try done.
  - apply Forall_singleton. by intros [].
  - intros [|i] t Hi Hr; simpl in Hi; [|done].
    injection Hi as <-. done.
Qed.

Lemma conversation_transition w w' :
  conversation w → transition w w' → conversation w'.
Proof.
  intros [C1 C2 C3 C4 C5 C6 C7 C8]
    [ (Hh & Hl & Hs & Ha & _)
    | Ha Hm Hh Hl Hs Ha'
    | n ok Ha Ha' Hh Hl Hs
    | l o Ha Hlog (Hh & Hl & Hs & Ha' & _) ].
  - split; rewrite ?Hh, ?Hl, ?Hs, ?Ha; done.
  - split; rewrite ?Hh, ?Hl, ?Hs, ?Ha'.
    + apply Forall_app. split.
      * eapply Forall_impl; [exact C1|]. intros r.
        apply well_formed_request_later. by apply prefix_app_r.
      * apply Forall_singleton. repeat split; simpl; [done|].
        by eexists _, _.
    + rewrite filter_user_snoc_user, !length_app by done. simpl. lia.
    + rewrite !length_app. simpl. lia.
    + apply Forall_app. split; [done|]. apply Forall_singleton. intros _.
      simpl. split; [done|].
      split; [apply trim_starts_clean | apply trim_ends_clean].
    + rewrite !Forall_app. repeat split; [done | |];
        apply Forall_singleton; eexists; eauto.
    + by apply answers_snoc_other.
    + intros _. by eexists _, _.
    + rewrite filter_me_snoc_other by apply reply_row_not_me.
      rewrite filter_app, filter_cons_True, filter_nil by apply me_row_is_me.
      rewrite filter_user_snoc_user, !fmap_app by done. by rewrite C8.
  - split; rewrite ?Hh, ?Hl, ?Hs, ?Ha'; try done.
    intros _. apply C7. by rewrite Ha.
  - rewrite Hlog in C3, C5, C8.
    apply Forall_app in C5 as [C5 _].
    rewrite filter_me_snoc_other in C8 by apply reply_row_not_me.
    rewrite length_app in C3.
    split; rewrite ?Hh, ?Hl, ?Hs, ?Ha'.
    + eapply Forall_impl; [exact C1|]. intros r.
      apply well_formed_request_later. by apply prefix_app_r.
    + destruct (settled_forms o) as [[-> _] | (t & -> & _)].
      * by rewrite app_nil_r.
      * by rewrite filter_user_snoc_other.
    + by rewrite length_app.
    + apply Forall_app. split; [done|].
      destruct (settled_forms o) as [[-> _] | (t & -> & _)]; [done|].
      apply Forall_singleton. intros _. apply shown_reply_clean.
    + apply Forall_app. split; [done|]. apply Forall_singleton.
      destruct (settled_forms o) as [[_ [t ->]] | (t & _ & ->)];
        eexists; eauto.
    + destruct (settled_forms o) as [[-> _] | (t & -> & _)].
      * by rewrite app_nil_r.
      * destruct (C7 Ha) as (h & u & Hhu & Hu). rewrite Hhu in C6 |- *.
        by apply answers_snoc_answer.
    + done.
    + destruct (settled_forms o) as [[-> [t ->]] | (t & -> & ->)].
      * rewrite app_nil_r.
        by rewrite filter_me_snoc_other by apply meta_row_not_me.
      * rewrite filter_me_snoc_other by apply reply_row_not_me.
        by rewrite filter_user_snoc_other.
Qed.

Lemma reachable_conversation w : reachable w → conversation w.
Proof.
  induction 1 as [|e w w' Hw IH Hstep]; [apply conversation_init|].
  eapply conversation_transition; [exact IH|].
  eapply step_transition; [by apply reachable_inv | done].
Qed.

End Conversation.

Section Rows.

Lemma settled_rows_transition w w' :
  transition w w' → settled_rows w `prefix_of` settled_rows w'.
Proof.
  unfold settled_rows.
  intros [ (_ & Hl & _ & Ha & _)
         | Ha _ _ Hl _ Ha'
         | n ok Ha Ha' _ Hl _
         | l o Ha Hlog (_ & Hl & _ & Ha' & _) ].
  - by rewrite Hl, Ha.
  - rewrite Ha, Ha', Hl, removelast_last. by apply prefix_app_r.
  - by rewrite Ha, Ha', Hl.
  - rewrite Ha', Hl, Hlog, removelast_last.
    destruct (awaiting w); [done|]. by apply prefix_app_r.
Qed.

Lemma settled_rows_run evs w w' :
  reachable w → run evs w = Normal w' →
  settled_rows w `prefix_of` settled_rows w'.
Proof.
  revert w. induction evs as [|e evs IH]; intros w Hw Hrun; simpl in Hrun.
  - by injection Hrun as <-.
  - destruct (step e w) as [w1|] eqn:Hstep; [|done]. simpl in Hrun.
    etrans.
    + apply settled_rows_transition.
      eapply step_transition; [by apply reachable_inv | done].
    + apply IH; [by eapply reachable_step | done].
Qed.

End Rows.

(** ** More about the exchanges *)

(** X1. An exchange whose response cannot be parsed as JSON leaves
    [history] with the user turn only, and its placeholder row carries the
    class [meta] and the text "Invalid response from server.", whatever the
    status of the response. *)
Theorem malformed_body_keeps_user_turn_only
    (w : widget) (ok : bool) (during1 during2 : list event) :
  reachable w →
  accepted w →
  Forall (λ e, user_event e = true) during1 →
  Forall (λ e, user_event e = true) during2 →
  ∃ w',
    run (exchange (MalformedBody ok) during1 during2) w = Normal w'
    ∧ history w' = history w ++ [Turn (lit "user") (trim (input_value w))]
    ∧ lit "meta" ∈ classes w' (placeholder_node w)
    ∧ displayed w' (placeholder_node w)
      = Some (lit "Invalid response from server.").
Proof.
  intros Hw Hacc Hd1 Hd2.
  destruct (exchange_runs w (MalformedBody ok) during1 during2
              (reachable_inv w Hw) Hacc Hd1 Hd2)
    as (w' & Hrun & Hh & Hl & _).
  exists w'. split; [exact Hrun|]. simpl in Hh, Hl.
  unfold classes, displayed. rewrite Hh, Hl, placeholder_node_lookup.
  repeat split. apply (bool_decide_unpack _). by vm_compute.
Qed.

Lemma malformed_body_keeps_user_turn_only_witness :
  ∃ w',
    run (exchange (MalformedBody true) [Click] [Blur]) asked = Normal w'
    ∧ history w' = history asked
                   ++ [Turn (lit "user") (trim (input_value asked))]
    ∧ lit "meta" ∈ classes w' (placeholder_node asked)
    ∧ displayed w' (placeholder_node asked)
      = Some (lit "Invalid response from server.").
Proof.
  apply (malformed_body_keeps_user_turn_only asked true [Click] [Blur]);
    [apply reachable_asked | apply accepted_asked
    | by repeat constructor | by repeat constructor].
Defined.

(** X2. In every reachable state at most one activation of [requestReply]
    is suspended, the input and the send button are disabled together, and
    they are disabled exactly while a request is in flight. *)
Theorem one_request_in_flight (w : widget) :
  reachable w →
  length (awaiting w) ≤ 1
  ∧ input_disabled w = send_disabled w
  ∧ (pending w = true ↔ awaiting w ≠ []).
Proof.
  intros Hw. pose proof (reachable_inv w Hw) as Hinv.
  split; [|split; [apply (inv_disabled w Hinv)|]].
  - destruct (inv_flight w Hinv) as [[-> _] | (c & l & -> & _)]; simpl; lia.
  - by apply pending_iff_in_flight.
Qed.

Lemma one_request_in_flight_witness :
  length (awaiting answered) ≤ 1
  ∧ input_disabled answered = send_disabled answered
  ∧ (pending answered = true ↔ awaiting answered ≠ []).
Proof.
  apply (one_request_in_flight answered).
  apply (run_reachable (exchange (Parsed true hello) [Click] [Click]) asked);
    [apply reachable_asked | by vm_compute].
Defined.



(** X4. Every request issued so far went to "/api/chat" by POST with
    content type "application/json" and the model "gpt-5-2025-08-07"; the
    history in its body is a prefix of the present history and ends with a
    user turn; and there are as many requests as user turns. *)
Theorem requests_are_well_formed (w : widget) :
  reachable w →
  Forall (λ r,
            url r = lit "/api/chat"
            ∧ method r = lit "POST"
            ∧ content_type r = lit "application/json"
            ∧ body_model r = lit "gpt-5-2025-08-07"
            ∧ body_history r `prefix_of` history w
            ∧ ∃ h u, body_history r = h ++ [u] ∧ role u = lit "user")
         (sent w)
  ∧ length (sent w) = length (filter is_user (history w)).
Proof.
  intros Hw. destruct (reachable_conversation w Hw) as [C1 C2 _ _ _ _ _ _].
  split; [|done].
  eapply Forall_impl; [exact C1|]. intros r (Hr & Hpre & Hu).
  rewrite Hr. simpl. by repeat split.
Qed.

Lemma requests_are_well_formed_witness :
  Forall (λ r,
            url r = lit "/api/chat"
            ∧ method r = lit "POST"
            ∧ content_type r = lit "application/json"
            ∧ body_model r = lit "gpt-5-2025-08-07"
            ∧ body_history r `prefix_of` history answered
            ∧ ∃ h u, body_history r = h ++ [u] ∧ role u = lit "user")
         (sent answered)
  ∧ length (sent answered) = length (filter is_user (history answered)).
Proof.
  apply (requests_are_well_formed answered).
  apply (run_reachable (exchange (Parsed true hello) [Click] [Click]) asked);
    [apply reachable_asked | by vm_compute].
Defined.

(** X5. The log holds two rows for every request issued; each row is a user
    row, a reply row or a reply row marked [meta], with no other class
    tokens; and the texts of the user rows are, in order, the texts of the
    user turns of [history]. *)
Theorem log_mirrors_requests (w : widget) :
  reachable w →
  length (log w) = 2 * length (sent w)
  ∧ Forall (λ r, ∃ t,
              r = Row [lit "lesson-chat-row"; lit "me"] t
              ∨ r = Row [lit "lesson-chat-row"; lit "bot"] t
              ∨ r = Row [lit "lesson-chat-row"; lit "bot"; lit "meta"] t)
           (log w)
  ∧ textContent <$> filter is_me_row (log w)
    = text <$> filter is_user (history w).
Proof.
  intros Hw. destruct (reachable_conversation w Hw) as [_ _ C3 _ C5 _ _ C8].
  by repeat split.
Qed.

Lemma log_mirrors_requests_witness :
  length (log answered) = 2 * length (sent answered)
  ∧ Forall (λ r, ∃ t,
              r = Row [lit "lesson-chat-row"; lit "me"] t
              ∨ r = Row [lit "lesson-chat-row"; lit "bot"] t
              ∨ r = Row [lit "lesson-chat-row"; lit "bot"; lit "meta"] t)
           (log answered)
  ∧ textContent <$> filter is_me_row (log answered)
    = text <$> filter is_user (history answered).
Proof.
  apply (log_mirrors_requests answered).
  apply (run_reachable (exchange (Parsed true hello) [Click] [Click]) asked);
    [apply reachable_asked | by vm_compute].
Defined.

(** X6. Rows are never removed, and a row is final once its exchange has
    ended: over any sequence of events, the rows other than the placeholder
    of the request in flight stay where they are, with their classes and
    text, and new rows come after them. *)
Theorem settled_rows_are_final (w : widget) (evs : list event) (w' : widget) :
  reachable w →
  run evs w = Normal w' →
  settled_rows w `prefix_of` settled_rows w'
  ∧ settled_rows w' `prefix_of` log w'
  ∧ length (log w) ≤ length (log w').
Proof.
  intros Hw Hrun.
  pose proof (settled_rows_run evs w w' Hw Hrun) as Hpre.
  pose proof (reachable_inv w Hw) as Hinv.
  pose proof (reachable_inv w' (run_reachable evs w w' Hw Hrun)) as Hinv'.
  assert (∀ v, flight v →
            settled_rows v `prefix_of` log v
            ∧ length (log v) ≤ S (length (settled_rows v))
            ∧ (awaiting v = [] → log v = settled_rows v)) as Hsettled.
  { intros v [[Ha _] | (c & l & Ha & _ & Hl & _)]; unfold settled_rows;
      rewrite Ha.
    - repeat split; [done | lia].
    - rewrite Hl, removelast_last, length_app. simpl.
      repeat split; [by apply prefix_app_r | lia | done]. }
  destruct (Hsettled w (inv_flight w Hinv)) as (_ & Hlen & Hidle).
  destruct (Hsettled w' (inv_flight w' Hinv')) as (Hpre' & Hlen' & Hidle').
  repeat split; [done | done |].
  apply prefix_length in Hpre. pose proof (prefix_length _ _ Hpre') as Hp'.
  destruct (inv_flight w Hinv) as [[Ha _] | (c & l & Ha & _ & Hl & _)].
  - rewrite (Hidle Ha). lia.
  - destruct (inv_flight w' Hinv') as [[Ha' _] | (c' & l' & Ha' & _ & Hl' & _)].
    + (* the request in flight has ended: its placeholder became a row *)
      rewrite (Hidle' Ha') in *.
      destruct (decide (length (settled_rows w') = length (settled_rows w)))
        as [Heq|]; [|lia].
      exfalso.
      pose proof (reachable_conversation w Hw) as [_ _ C3 _ _ _ _ _].
      pose proof (reachable_conversation w'
                    (run_reachable evs w w' Hw Hrun)) as [_ _ C3' _ _ _ _ _].
      rewrite (Hidle' Ha') in C3'.
      assert (length (log w) = S (length (settled_rows w))) as Hlw.
      { unfold settled_rows. rewrite Ha, Hl, removelast_last, length_app.
        simpl. lia. }
      lia.
    + assert (length (log w) = S (length (settled_rows w))) as Hlw.
      { unfold settled_rows. rewrite Ha, Hl, removelast_last, length_app.
        simpl. lia. }
      assert (length (log w') = S (length (settled_rows w'))) as Hlw'.
      { unfold settled_rows. rewrite Ha', Hl', removelast_last, length_app.
        simpl. lia. }
      lia.
Qed.

Lemma settled_rows_are_final_witness :
  settled_rows asked `prefix_of` settled_rows answered
  ∧ settled_rows answered `prefix_of` log answered
  ∧ length (log asked) ≤ length (log answered).
Proof.
  apply (settled_rows_are_final asked
           (exchange (Parsed true hello) [Click] [Click]) answered);
    [apply reachable_asked | by vm_compute].
Defined.

(** X7. Every user turn and every assistant turn of [history] has a text
    that is not empty and that neither begins nor ends with white space:
    what is sent back to the server is always trimmed. *)
Theorem turns_are_trimmed (w : widget) :
  reachable w →
  Forall (λ t, role t = lit "user" ∨ role t = lit "assistant" →
               text t ≠ [] ∧ trim (text t) = text t)
         (history w).
Proof.
  intros Hw. destruct (reachable_conversation w Hw) as [_ _ _ C4 _ _ _ _].
  eapply Forall_impl; [exact C4|]. simpl. intros t Ht Hrole.
  destruct Ht as (Hne & Hs & He).
  - intros Hsys. destruct Hrole as [Hr | Hr]; rewrite Hr in Hsys; done.
  - split; [done | by apply trim_id].
Qed.

Lemma turns_are_trimmed_witness :
  Forall (λ t, role t = lit "user" ∨ role t = lit "assistant" →
               text t ≠ [] ∧ trim (text t) = text t)
         (history answered).
Proof.
  apply (turns_are_trimmed answered).
  apply (run_reachable (exchange (Parsed true hello) [Click] [Click]) asked);
    [apply reachable_asked | by vm_compute].
Defined.

(** X8. In every reachable state an assistant turn comes right after a
    user turn: [history] never holds an assistant turn first, after the
    system turn, or after another assistant turn. *)
Theorem answers_come_after_questions (w : widget) (i : nat) (t : turn) :
  reachable w →
  history w !! i = Some t →
  role t = lit "assistant" →
  ∃ j u, i = S j ∧ history w !! j = Some u ∧ role u = lit "user".
Proof.
  intros Hw Hi Hr.
  destruct (reachable_conversation w Hw) as [_ _ _ _ _ C6 _ _].
  by apply (C6 i t).
Qed.

Lemma answers_come_after_questions_witness :
  ∃ j u, 2 = S j ∧ history answered !! j = Some u ∧ role u = lit "user".
Proof.
  apply (answers_come_after_questions answered 2
           (Turn (lit "assistant") (lit "Hello!")));
    [ apply (run_reachable (exchange (Parsed true hello) [Click] [Click]) asked);
        [apply reachable_asked | by vm_compute]
    | by vm_compute | reflexivity ].
Defined.

(** X9. A submit that the listener lets through empties the input field,
    disables the input and the send button, and appends two rows to the
    log: the user's row with the trimmed message, then the placeholder row
    showing "...", which is the node the suspended activation holds. *)
Theorem accepted_submit_shows_question (w : widget) :
  reachable w →
  accepted w →
  ∃ w',
    step Submit w = Normal w'
    ∧ input_value w' = []
    ∧ input_disabled w' = true
    ∧ pending w' = true
    ∧ log w' = log w
               ++ [Row [lit "lesson-chat-row"; lit "me"] (trim (input_value w));
                   Row [lit "lesson-chat-row"; lit "bot"] (lit "...")]
    ∧ awaiting w' = [AwaitFetch (placeholder_node w)].
Proof.
  intros Hw [Hp Hm]. unfold pending in Hp.
  pose proof (idle_awaiting w (inv_flight w (reachable_inv w Hw)) Hp) as Ha.
  simpl. rewrite form_submit_idle by done.
  eexists. split; [done|]. simpl. rewrite Ha, <- app_assoc, length_app.
  simpl. unfold placeholder_node. repeat split. do 2 f_equal. lia.
Qed.

Lemma accepted_submit_shows_question_witness :
  ∃ w',
    step Submit asked = Normal w'
    ∧ input_value w' = []
    ∧ input_disabled w' = true
    ∧ pending w' = true
    ∧ log w' = log asked
               ++ [Row [lit "lesson-chat-row"; lit "me"]
                       (trim (input_value asked));
                   Row [lit "lesson-chat-row"; lit "bot"] (lit "...")]
    ∧ awaiting w' = [AwaitFetch (placeholder_node asked)].
Proof.
  apply (accepted_submit_shows_question asked);
    [apply reachable_asked | apply accepted_asked].
Defined.

(** X10. A click on the toggle flips the panel between open and closed and
    a second click restores it; neither touches [history], the log, the
    requests, the input value or the disabled state of the controls. A
    click that opens the panel gives the input the focus when the input is
    enabled, and leaves the focus as it is when the input is disabled. *)
Theorem toggle_flips_panel_only (w : widget) :
  ∃ w1 w2,
    step Click w = Normal w1
    ∧ step Click w1 = Normal w2
    ∧ container_open w1 = negb (container_open w)
    ∧ container_open w2 = container_open w
    ∧ (history w1, log w1, sent w1, awaiting w1, input_value w1,
       input_disabled w1, send_disabled w1)
      = (history w, log w, sent w, awaiting w, input_value w,
         input_disabled w, send_disabled w)
    ∧ (container_open w = false → input_disabled w = false →
       input_focused w1 = true)
    ∧ (input_disabled w = true → input_focused w1 = input_focused w)
    ∧ (container_open w = true → input_focused w1 = input_focused w).
Proof.
  eexists _, _. split; [reflexivity|]. split; [reflexivity|].
  unfold toggle_click, input_focus.
  destruct w as [h l v di ds op fo se aw]. simpl.
  destruct op, di; simpl; repeat split; try done.
  all: by destruct op, di.
Qed.

Section Bodies.

Lemma non_object_has_no_field payload k :
  (∀ fields, payload ≠ VObj fields) → field payload k = VUndefined.
Proof. intros Hno. destruct payload; try done. by destruct (Hno fields). Qed.

Lemma failed_exchange_runs w o during1 during2 :
  inv w → accepted w →
  Forall (λ e, user_event e = true) during1 →
  Forall (λ e, user_event e = true) during2 →
  reply_turns o = [] →
  ∃ w' t,
    run (exchange o during1 during2) w = Normal w'
    ∧ history w' = history w ++ [Turn (lit "user") (trim (input_value w))]
    ∧ log w' = log w ++ [me_row (trim (input_value w)); meta_row t]
    ∧ settled_row o = meta_row t
    ∧ sent w' = sent w ++ [chat_request
                   (history w ++ [Turn (lit "user") (trim (input_value w))])]
    ∧ awaiting w' = [] ∧ send_disabled w' = false.
Proof.
  intros Hinv Hacc Hd1 Hd2 Hno.
  destruct (exchange_runs w o during1 during2 Hinv Hacc Hd1 Hd2)
    as (w' & Hrun & Hh & Hl & Hs & Ha & Hd & _).
  destruct (settled_forms o) as [[_ [t Ht]] | (t & Hturn & _)];
    [|by rewrite Hno in Hturn].
  exists w', t. rewrite Hno in Hh. rewrite Ht in Hl. by repeat split.
Qed.

End Bodies.

(** X11. A body that parses to anything but a JSON object (an array, a
    number, a string, a boolean, [null]) is a failure whatever the status:
    the row is marked [meta] and shows exactly "Could not get a reply.",
    and [history] keeps the user turn only. *)
Theorem non_object_body_is_failure
    (w : widget) (during1 during2 : list event) (ok : bool) (payload : value) :
  reachable w →
  accepted w →
  Forall (λ e, user_event e = true) during1 →
  Forall (λ e, user_event e = true) during2 →
  (∀ fields, payload ≠ VObj fields) →
  ∃ w',
    run (exchange (Parsed ok payload) during1 during2) w = Normal w'
    ∧ lit "meta" ∈ classes w' (placeholder_node w)
    ∧ displayed w' (placeholder_node w) = Some (lit "Could not get a reply.")
    ∧ history w' = history w ++ [Turn (lit "user") (trim (input_value w))].
Proof.
  intros Hw Hacc Hd1 Hd2 Hno.
  destruct (exchange_runs w (Parsed ok payload) during1 during2
              (reachable_inv w Hw) Hacc Hd1 Hd2)
    as (w' & Hrun & Hh & Hl & _).
  exists w'. split; [exact Hrun|].
  assert (settled_row (Parsed ok payload)
          = meta_row (lit "Could not get a reply.")) as Hrow.
  { destruct payload; try (by destruct ok). by destruct (Hno fields). }
  assert (reply_turns (Parsed ok payload) = []) as Hturns.
  { destruct payload; try (by destruct ok). by destruct (Hno fields). }
  rewrite Hturns in Hh. rewrite Hrow in Hl.
  unfold classes, displayed. rewrite Hh, Hl, placeholder_node_lookup.
  repeat split. apply (bool_decide_unpack _). by vm_compute.
Qed.

Lemma non_object_body_is_failure_witness :
  ∃ w',
    run (exchange (Parsed true (VArr [VStr (lit "Hello!")])) [Click] [])
        asked = Normal w'
    ∧ lit "meta" ∈ classes w' (placeholder_node asked)
    ∧ displayed w' (placeholder_node asked)
      = Some (lit "Could not get a reply.")
    ∧ history w' = history asked
                   ++ [Turn (lit "user") (trim (input_value asked))].
Proof.
  apply (non_object_body_is_failure asked [Click] [] true
           (VArr [VStr (lit "Hello!")]));
    [apply reachable_asked | apply accepted_asked
    | by repeat constructor | by repeat constructor | done].
Defined.

(** X12. However an exchange ends, its row and [history] agree: either the
    row is marked [meta] and [history] got the user turn only, or the row
    is not marked [meta], shows a non-empty text, and [history] got the
    user turn followed by an assistant turn with that very text. *)
Theorem row_and_history_agree
    (w : widget) (o : outcome) (during1 during2 : list event) :
  reachable w →
  accepted w →
  Forall (λ e, user_event e = true) during1 →
  Forall (λ e, user_event e = true) during2 →
  ∃ w',
    run (exchange o during1 during2) w = Normal w'
    ∧ ((lit "meta" ∈ classes w' (placeholder_node w)
        ∧ history w' = history w
                       ++ [Turn (lit "user") (trim (input_value w))])
       ∨ ((lit "meta" ∉ classes w' (placeholder_node w))
          ∧ ∃ s, s ≠ []
                 ∧ displayed w' (placeholder_node w) = Some s
                 ∧ history w' = history w
                                ++ [Turn (lit "user") (trim (input_value w));
                                    Turn (lit "assistant") s])).
Proof.
  intros Hw Hacc Hd1 Hd2.
  destruct (exchange_runs w o during1 during2 (reachable_inv w Hw)
              Hacc Hd1 Hd2)
    as (w' & Hrun & Hh & Hl & _).
  exists w'. split; [exact Hrun|].
  unfold classes, displayed. rewrite Hh, Hl, placeholder_node_lookup.
  destruct (settled_forms o) as [[-> [t ->]] | (t & -> & ->)].
  - left. split; [|done]. apply (bool_decide_unpack _). by vm_compute.
  - right. split.
    + apply (bool_decide_eq_false_1 _). by vm_compute.
    + exists (str_or (trim t) fallback). repeat split.
      apply shown_reply_clean.
Qed.

Lemma row_and_history_agree_witness :
  ∃ w',
    run (exchange (Parsed true hello) [Click] [Click]) asked = Normal w'
    ∧ ((lit "meta" ∈ classes w' (placeholder_node asked)
        ∧ history w' = history asked
                       ++ [Turn (lit "user") (trim (input_value asked))])
       ∨ ((lit "meta" ∉ classes w' (placeholder_node asked))
          ∧ ∃ s, s ≠ []
                 ∧ displayed w' (placeholder_node asked) = Some s
                 ∧ history w' = history asked
                                ++ [Turn (lit "user")
                                         (trim (input_value asked));
                                    Turn (lit "assistant") s])).
Proof.
  apply (row_and_history_agree asked (Parsed true hello) [Click] [Click]);
    [apply reachable_asked | apply accepted_asked
    | by repeat constructor | by repeat constructor].
Defined.

(** X13. With a status that is not ok the body's [text] is not used: even
    when the body is an object with a string [text], the row is marked
    [meta], its text begins with "Could not get a reply", and no assistant
    turn is appended. *)
Theorem error_status_discards_text
    (w : widget) (during1 during2 : list event) (payload : value) :
  reachable w →
  accepted w →
  Forall (λ e, user_event e = true) during1 →
  Forall (λ e, user_event e = true) during2 →
  ∃ w' rest,
    run (exchange (Parsed false payload) during1 during2) w = Normal w'
    ∧ lit "meta" ∈ classes w' (placeholder_node w)
    ∧ displayed w' (placeholder_node w)
      = Some (lit "Could not get a reply" ++ rest)
    ∧ history w' = history w ++ [Turn (lit "user") (trim (input_value w))].
Proof.
  intros Hw Hacc Hd1 Hd2.
  destruct (exchange_runs w (Parsed false payload) during1 during2
              (reachable_inv w Hw) Hacc Hd1 Hd2)
    as (w' & Hrun & Hh & Hl & _).
  exists w'. eexists. split; [exact Hrun|]. simpl in Hh, Hl.
  unfold classes, displayed. rewrite Hh, Hl, placeholder_node_lookup.
  repeat split. apply (bool_decide_unpack _). by vm_compute.
Qed.

Lemma error_status_discards_text_witness :
  ∃ w' rest,
    run (exchange (Parsed false hello) [] []) asked = Normal w'
    ∧ lit "meta" ∈ classes w' (placeholder_node asked)
    ∧ displayed w' (placeholder_node asked)
      = Some (lit "Could not get a reply" ++ rest)
    ∧ history w' = history asked
                   ++ [Turn (lit "user") (trim (input_value asked))].
Proof.
  apply (error_status_discards_text asked [] [] hello);
    [apply reachable_asked | apply accepted_asked
    | by repeat constructor | by repeat constructor].
Defined.

Section Details.

Lemma failing_object ok fields :
  ok = false ∨ (∀ t, fields !! lit "text" ≠ Some (VStr t)) →
  reply_text ok (VObj fields) = None.
Proof.
  intros [-> | Hno]; [done|]. unfold reply_text. destruct ok; [|done].
  simpl. destruct (fields !! lit "text") as [v|] eqn:Hv; [|done].
  destruct v; try done. by destruct (Hno s).
Qed.

Lemma failure_text_parenthesized d :
  lit "Could not get a reply" ++ suffix (Some d) ++ lit "."
  = lit "Could not get a reply (" ++ d ++ lit ").".
Proof.
  unfold suffix, paren. by rewrite <- !app_assoc.
Qed.

End Details.

(** X14. In a failure, a top-level [message] that is a string with
    something other than white space in it decides the detail, whatever
    [error] and [details] hold, and it is shown trimmed. *)
Theorem failure_prefers_trimmed_message
    (w : widget) (during1 during2 : list event) (ok : bool)
    (fields : gmap jsstring value) (m : jsstring) :
  reachable w →
  accepted w →
  Forall (λ e, user_event e = true) during1 →
  Forall (λ e, user_event e = true) during2 →
  ok = false ∨ (∀ t, fields !! lit "text" ≠ Some (VStr t)) →
  fields !! lit "message" = Some (VStr m) →
  trim m ≠ [] →
  ∃ w',
    run (exchange (Parsed ok (VObj fields)) during1 during2) w = Normal w'
    ∧ displayed w' (placeholder_node w)
      = Some (lit "Could not get a reply (" ++ trim m ++ lit ").").
Proof.
  intros Hw Hacc Hd1 Hd2 Hfail Hmsg Hm.
  destruct (exchange_runs w (Parsed ok (VObj fields)) during1 during2
              (reachable_inv w Hw) Hacc Hd1 Hd2)
    as (w' & Hrun & _ & Hl & _).
  exists w'. split; [exact Hrun|].
  unfold displayed. rewrite Hl, placeholder_node_lookup.
  cbn [settled_row]. rewrite (failing_object ok fields Hfail).
  assert (designed_detail (VObj fields) = Some (trim m)) as ->.
  { unfold designed_detail. cbn [field]. rewrite Hmsg.
    cbn [default from_option id is_nonblank_string asString].
    apply toBoolean_str in Hm. by rewrite Hm. }
  cbn [fmap option_fmap option_map meta_row textContent].
  by rewrite failure_text_parenthesized.
Qed.

Lemma failure_prefers_trimmed_message_witness :
  ∃ w',
    run (exchange
           (Parsed false
              (VObj {[ lit "message" := VStr (lit "  Too many requests ");
                       lit "error" := VStr (lit "rate_limited") ]}))
           [] []) asked = Normal w'
    ∧ displayed w' (placeholder_node asked)
      = Some (lit "Could not get a reply ("
                ++ trim (lit "  Too many requests ") ++ lit ").").
Proof.
  apply (failure_prefers_trimmed_message asked [] [] false
           {[ lit "message" := VStr (lit "  Too many requests ");
              lit "error" := VStr (lit "rate_limited") ]}
           (lit "  Too many requests "));
    [apply reachable_asked | apply accepted_asked
    | by repeat constructor | by repeat constructor | by left
    | by vm_compute | by vm_compute].
Defined.

(** X15. In a failure whose [message] is missing, is not a string, or
    holds white space only, a top-level [error] that is a non-empty string
    is the detail, and it is shown as it is, untrimmed. *)
Theorem failure_falls_back_on_error
    (w : widget) (during1 during2 : list event) (ok : bool)
    (fields : gmap jsstring value) (e : jsstring) :
  reachable w →
  accepted w →
  Forall (λ e, user_event e = true) during1 →
  Forall (λ e, user_event e = true) during2 →
  ok = false ∨ (∀ t, fields !! lit "text" ≠ Some (VStr t)) →
  (∀ m, fields !! lit "message" = Some (VStr m) → trim m = []) →
  fields !! lit "error" = Some (VStr e) →
  e ≠ [] →
  ∃ w',
    run (exchange (Parsed ok (VObj fields)) during1 during2) w = Normal w'
    ∧ displayed w' (placeholder_node w)
      = Some (lit "Could not get a reply (" ++ e ++ lit ").").
Proof.
  intros Hw Hacc Hd1 Hd2 Hfail Hmsg Herr He.
  destruct (exchange_runs w (Parsed ok (VObj fields)) during1 during2
              (reachable_inv w Hw) Hacc Hd1 Hd2)
    as (w' & Hrun & _ & Hl & _).
  exists w'. split; [exact Hrun|].
  unfold displayed. rewrite Hl, placeholder_node_lookup.
  cbn [settled_row]. rewrite (failing_object ok fields Hfail).
  assert (designed_detail (VObj fields) = Some e) as ->.
  { unfold designed_detail. cbn [field]. rewrite Herr.
    cbn [default from_option id asString].
    assert (is_nonblank_string
              (default VUndefined (fields !! lit "message")) = false) as ->.
    { destruct (fields !! lit "message") as [v|] eqn:Hv; [|done].
      destruct v; try done. unfold is_nonblank_string. cbn [default from_option id asString].
      by rewrite (Hmsg s eq_refl). }
    apply toBoolean_str in He. by rewrite He. }
  cbn [fmap option_fmap option_map meta_row textContent].
  by rewrite failure_text_parenthesized.
Qed.

Lemma failure_falls_back_on_error_witness :
  ∃ w',
    run (exchange
           (Parsed true
              (VObj {[ lit "message" := VStr (lit "   ");
                       lit "error" := VStr (lit " quota ") ]}))
           [] []) asked = Normal w'
    ∧ displayed w' (placeholder_node asked)
      = Some (lit "Could not get a reply (" ++ lit " quota " ++ lit ").").
Proof.
  apply (failure_falls_back_on_error asked [] [] true
           {[ lit "message" := VStr (lit "   ");
              lit "error" := VStr (lit " quota ") ]}
           (lit " quota "));
    [apply reachable_asked | apply accepted_asked
    | by repeat constructor | by repeat constructor
    | right; intros t; by vm_compute
    | | by vm_compute | by vm_compute].
  intros m Hm. vm_compute in Hm. injection Hm as <-. by vm_compute.
Defined.

Section FollowUp.

Lemma follow_up_runs w v :
  send_disabled w = false → trim v ≠ [] →
  ∃ w',
    run [Edit v; Submit] w = Normal w'
    ∧ sent w' = sent w ++ [chat_request
                   (history w ++ [Turn (lit "user") (trim v)])].
Proof.
  intros Hs Hv. cbn [run step bind].
  rewrite form_submit_idle by done. by eexists.
Qed.

End FollowUp.

(** X16. After an exchange that failed (the transport failed, the body
    could not be parsed, or the status was not ok), the next message that
    the user sends goes out with the unanswered question still in the
    history: the body of the new request ends with the two user turns, one
    after the other. *)
Theorem retry_resends_unanswered_question
    (w : widget) (o : outcome) (during1 during2 : list event) (v : jsstring) :
  reachable w →
  accepted w →
  Forall (λ e, user_event e = true) during1 →
  Forall (λ e, user_event e = true) during2 →
  o = TransportFailure ∨ (∃ ok, o = MalformedBody ok)
  ∨ (∃ payload, o = Parsed false payload) →
  trim v ≠ [] →
  ∃ w' req,
    run (exchange o during1 during2 ++ [Edit v; Submit]) w = Normal w'
    ∧ last (sent w') = Some req
    ∧ body_history req
      = history w ++ [Turn (lit "user") (trim (input_value w));
                      Turn (lit "user") (trim v)].
Proof.
  intros Hw Hacc Hd1 Hd2 Ho Hv.
  assert (reply_turns o = []) as Hno.
  { destruct Ho as [-> | [[ok ->] | [payload ->]]]; done. }
  destruct (failed_exchange_runs w o during1 during2 (reachable_inv w Hw)
              Hacc Hd1 Hd2 Hno)
    as (w1 & t & Hrun & Hh & _ & _ & _ & _ & Hs).
  destruct (follow_up_runs w1 v Hs Hv) as (w2 & Hrun2 & Hsent).
  exists w2. eexists. rewrite run_app, Hrun. cbn [bind].
  split; [exact Hrun2|]. rewrite Hsent, last_snoc. split; [done|].
  simpl. by rewrite Hh, <- app_assoc.
Qed.

Lemma retry_resends_unanswered_question_witness :
  ∃ w' req,
    run (exchange TransportFailure [Click] []
           ++ [Edit (lit "Are you there?"); Submit]) asked = Normal w'
    ∧ last (sent w') = Some req
    ∧ body_history req
      = history asked ++ [Turn (lit "user") (trim (input_value asked));
                          Turn (lit "user") (trim (lit "Are you there?"))].
Proof.
  apply (retry_resends_unanswered_question asked TransportFailure [Click] []
           (lit "Are you there?"));
    [apply reachable_asked | apply accepted_asked
    | by repeat constructor | by repeat constructor
    | by left | by vm_compute].
Defined.

(** X17. After an exchange that succeeded, the next message that the user
    sends goes out with the whole conversation: the body of the new request
    ends with the earlier question, the reply as it was displayed, and the
    new question. *)
Theorem follow_up_carries_reply
    (w : widget) (during1 during2 : list event)
    (fields : gmap jsstring value) (t v : jsstring) :
  reachable w →
  accepted w →
  Forall (λ e, user_event e = true) during1 →
  Forall (λ e, user_event e = true) during2 →
  fields !! lit "text" = Some (VStr t) →
  trim v ≠ [] →
  ∃ w' req shown,
    run (exchange (Parsed true (VObj fields)) during1 during2
           ++ [Edit v; Submit]) w = Normal w'
    ∧ last (sent w') = Some req
    ∧ displayed w' (placeholder_node w) = Some shown
    ∧ body_history req
      = history w ++ [Turn (lit "user") (trim (input_value w));
                      Turn (lit "assistant") shown;
                      Turn (lit "user") (trim v)].
Proof.
  intros Hw Hacc Hd1 Hd2 Htext Hv.
  destruct (exchange_runs w (Parsed true (VObj fields)) during1 during2
              (reachable_inv w Hw) Hacc Hd1 Hd2)
    as (w1 & Hrun & Hh & Hl & _ & _ & Hs & _).
  cbn [reply_turns settled_row reply_text field] in Hh, Hl.
  rewrite Htext in Hh, Hl. cbn [default from_option id asString] in Hh, Hl.
  cbn [run step bind] in *.
  exists (form_submit (set_input_value v w1)). eexists _, _.
  rewrite run_app, Hrun. cbn [run step bind].
  split; [done|].
  rewrite form_submit_idle by done. cbn [sent set_input_value history log].
  unfold displayed. cbn [log].
  rewrite last_snoc. split; [done|].
  rewrite Hl. split.
  - rewrite !lookup_app_l
      by (rewrite ?length_app; unfold placeholder_node; simpl; lia).
    by rewrite placeholder_node_lookup.
  - cbn [body_history chat_request]. by rewrite Hh, <- app_assoc.
Qed.

Lemma follow_up_carries_reply_witness :
  ∃ w' req shown,
    run (exchange (Parsed true hello) [Click] [Click]
           ++ [Edit (lit "And this one?"); Submit]) asked = Normal w'
    ∧ last (sent w') = Some req
    ∧ displayed w' (placeholder_node asked) = Some shown
    ∧ body_history req
      = history asked ++ [Turn (lit "user") (trim (input_value asked));
                          Turn (lit "assistant") shown;
                          Turn (lit "user") (trim (lit "And this one?"))].
Proof.
  apply (follow_up_carries_reply asked [Click] [Click]
           {[ lit "text" := VStr (lit "  Hello!  ") ]} (lit "  Hello!  ")
           (lit "And this one?"));
    [apply reachable_asked | apply accepted_asked
    | by repeat constructor | by repeat constructor
    | by vm_compute | by vm_compute].
Defined.

(** X18. The script activates exactly when the document has a body whose
    [lessonKey] data attribute is a non-empty string; then the widget
    starts in [init], and the dialog is labelled with the lesson name
    followed by " AI helper", the name being "lesson" when the
    [lessonName] data attribute is missing or empty. *)
Theorem main_needs_lesson_key (body : option (gmap jsstring jsstring)) :
  (main body = None
   ↔ body = None
     ∨ ∃ dataset, body = Some dataset
                  ∧ (dataset !! lit "lessonKey" = None
                     ∨ dataset !! lit "lessonKey" = Some []))
  ∧ (∀ m, main body = Some m →
          state m = init
          ∧ ∃ dataset name,
              body = Some dataset
              ∧ dialog_label m = name ++ lit " AI helper"
              ∧ name ≠ []
              ∧ (dataset !! lit "lessonName" = Some name
                 ∨ (name = lit "lesson"
                    ∧ (dataset !! lit "lessonName" = None
                       ∨ dataset !! lit "lessonName" = Some [])))).
Proof.
  destruct body as [dataset|]; simpl.
  2: { split; [by split; [left|] | by intros m]. }
  unfold dataset_get.
  destruct (dataset !! lit "lessonKey") as [[|c key]|] eqn:Hkey; simpl.
  - split; [|by intros m]. split; [|done]. intros _. right.
    exists dataset. by split; [|right].
  - split.
    { split; [done|].
      intros [? | (d & Hd & [H | H])]; [done | |];
        injection Hd as Hd; subst d;
        pose proof (eq_trans (eq_sym H) Hkey); done. }
    intros m [= <-]. simpl. split; [done|].
    destruct (dataset !! lit "lessonName") as [[|c' name]|] eqn:Hname.
    + exists dataset, (lit "lesson"). repeat split; [done|].
      right. split; [done | by right].
    + exists dataset, (c' :: name). repeat split; [done|]. by left.
    + exists dataset, (lit "lesson"). repeat split; [done|].
      right. split; [done | by left].
  - split; [|by intros m]. split; [|done]. intros _. right.
    exists dataset. by split; [|left].
Qed.
